(** * Request governance of the Jira plugin: rate limiter, HTTP executor,
      request deduplication

    A shallow embedding of
      - [RateLimiter]           (services/rateLimiter.ts),
      - [ObsidianHttpClient]    (services/ObsidianHttpClient.ts),
      - [HttpClient]            (services/httpClient.ts: the errors it
                                 builds, its response interceptor and its
                                 retry loop),
      - [JiraApiService]        (services/jiraApiService.ts),
    followed by the properties of the specification that concern them.

    Conventions of the embedding.
    - [Date.now()] is an explicit argument [now : Z] (milliseconds).
    - JavaScript numbers that hold counts, capacities, statuses and
      timestamps are integers ([Z]).  What [parseInt] reads and the
      products and sums taken of it are rounded to the nearest double
      ([toDouble]), and a number is printed as
      [Number.prototype.toString] prints it.  The one quotient the limiter
      takes, [(elapsed / 60000) * requestsPerMinute], is computed over the
      rationals ([Q]), so IEEE rounding of that product is not
      represented.  The values a number can take besides an integer are
      kept where the code can produce them (the infinities, [JNaN]).
    - A thrown value is data: functions that can throw return [Throw e].
    - Of a parsed body the clients read [message] and [errorMessages];
      both are taken as strings, as services/types.ts declares them.
      Fields of the error records that carry wall-clock text
      ([timestamp], [resetTime]) or the body's [errors] object are left
      out; where computing [resetTime] can throw, in
      [HttpClient.createRateLimitErrorFromResponse], the throw is kept.
    - A promise is a name in a store; the event loop is a list of events
      (calls, settlements) applied in order. *)

From Stdlib Require Import ZArith QArith Qround Lia.
From Stdlib Require Import Ascii String DecimalString DecimalPos.
From stdpp Require Import base gmap strings list.

#[local] Open Scope Z_scope.

(** ** JavaScript numbers *)

(** The values of a number the code can produce: an integer, an infinity,
    NaN. *)
Inductive jsnum : Type :=
| JNum (z : Z)
| JInfinity
| JNaN
| JNegInfinity.

(** The double nearest to an integer, ties to the even significand; an
    integer below 2^53 in magnitude is a double, and beyond the largest
    double the result is an infinity. *)
Definition toDouble (z : Z) : jsnum :=
  let a := Z.abs z in
  if a <? 2 ^ 53 then JNum z
  else
    let e := Z.log2 a - 52 in
    let q := a / 2 ^ e in
    let r := a mod 2 ^ e in
    let half := 2 ^ (e - 1) in
    let q' := if (half <? r) || ((r =? half) && Z.odd q) then q + 1 else q in
    let m := q' * 2 ^ e in
    if 2 ^ 1024 <=? m then (if 0 <? z then JInfinity else JNegInfinity)
    else JNum (Z.sgn z * m).

(** [a * k] for a number [a] and an integer constant [k]: the product,
    rounded. *)
Definition jsnum_mul (a : jsnum) (k : Z) : jsnum :=
  match a with
  | JNum z => toDouble (z * k)
  | JInfinity =>
      if k =? 0 then JNaN else if 0 <? k then JInfinity else JNegInfinity
  | JNegInfinity =>
      if k =? 0 then JNaN else if 0 <? k then JNegInfinity else JInfinity
  | JNaN => JNaN
  end.

(** A time value: what [new Date(t)] accepts, a finite number within
    8.64e15 ms of the epoch.  On any other number
    [new Date(t).toISOString()] throws a RangeError. *)
Definition isTimeValue (t : jsnum) : bool :=
  match t with
  | JNum z => Z.abs z <=? 8640000000000000
  | _ => false
  end.

(** [now + a] for an integer clock value [now]: the sum, rounded. *)
Definition jsnum_add (now : Z) (a : jsnum) : jsnum :=
  match a with
  | JNum z => toDouble (now + z)
  | other => other
  end.

(** ** The token bucket *)

Module RateLimiter.

Record RateLimiterConfig : Type := {
  requestsPerMinute : Z;
  burstLimit : Z;
  queueTimeout : Z
}.

Record RateLimitResult : Type := {
  allowed : bool;
  remaining : Z;
  retryAfter : option jsnum;
  error : option string
}.

Record RateLimitStats : Type := {
  stats_requestsPerMinute : Z;
  stats_burstLimit : Z;
  currentTokens : Z;
  queueSize : nat;
  stats_lastRefillTime : Z
}.

(** An entry of the wait queue: [waiter] names the promise whose
    [resolve] the entry holds. *)
Record QueueItem : Type := {
  waiter : nat;
  timestamp : Z
}.

(** The object's fields. [refillInterval] tells whether the interval
    timer is armed; [settled] logs every call of a queued [resolve], in
    order, so that waking a waiter is observable. *)
Record t : Type := {
  config : RateLimiterConfig;
  tokens : Z;
  lastRefillTime : Z;
  queue : list QueueItem;
  refillInterval : bool;
  settled : list (nat * RateLimitResult)
}.

(** [config.queueTimeout || 30000] *)
Definition constructor (rpm burst : Z) (qTimeout : option Z) (now : Z) : t :=
  let cfg := {| requestsPerMinute := rpm;
                burstLimit := burst;
                queueTimeout := match qTimeout with
                                | Some q => if q =? 0 then 30000 else q
                                | None => 30000
                                end |} in
  {| config := cfg;
     tokens := burstLimit cfg;
     lastRefillTime := now;
     queue := [];
     refillInterval := true;
     settled := [] |}.

(** The [while (queue.length > 0 && tokens > 0)] loop of [processQueue],
    by recursion on the queue: the remaining queue, the remaining tokens
    and the resolutions made. *)
Fixpoint processQueue_loop (q : list QueueItem) (tok : Z)
  : list QueueItem * Z * list (nat * RateLimitResult) :=
  match q with
  | [] => ([], tok, [])
  | queueItem :: rest =>
      if 0 <? tok then
        let tok' := tok - 1 in
        let '(q', tok'', rs) := processQueue_loop rest tok' in
        (q', tok'',
         (waiter queueItem,
          {| allowed := true; remaining := tok';
             retryAfter := None; error := None |}) :: rs)
      else (q, tok, [])
  end.

Definition processQueue (s : t) : t :=
  let '(q', tok', rs) := processQueue_loop (queue s) (tokens s) in
  {| config := config s; tokens := tok'; lastRefillTime := lastRefillTime s;
     queue := q'; refillInterval := refillInterval s;
     settled := settled s ++ rs |}.

(** [(elapsed / 60000) * requestsPerMinute] *)
Definition tokensToAdd (s : t) (now : Z) : Q :=
  let elapsed := now - lastRefillTime s in
  ((inject_Z elapsed / 60000) * inject_Z (requestsPerMinute (config s)))%Q.

Definition refillTokens (now : Z) (s : t) : t :=
  let toAdd := tokensToAdd s now in
  if Qle_bool 1 toAdd then
    processQueue
      {| config := config s;
         tokens := Z.min (burstLimit (config s)) (tokens s + Qfloor toAdd);
         lastRefillTime := now;
         queue := queue s; refillInterval := refillInterval s;
         settled := settled s |}
  else s.

(** [Math.ceil(tokensNeeded * (60000 / requestsPerMinute))]; a division by
    zero is [Infinity] in JavaScript. *)
Definition calculateRetryAfter (s : t) : jsnum :=
  if 0 <? tokens s then JNum 0
  else
    let tokensNeeded := 1%Q in
    let rpm := requestsPerMinute (config s) in
    if rpm =? 0 then JInfinity
    else
      let timePerToken := (60000 / inject_Z rpm)%Q in
      JNum (Qceiling (tokensNeeded * timePerToken)).

Definition acquireToken (now : Z) (s : t) : RateLimitResult * t :=
  let s1 := refillTokens now s in
  if 0 <? tokens s1 then
    let s2 := {| config := config s1; tokens := tokens s1 - 1;
                 lastRefillTime := lastRefillTime s1; queue := queue s1;
                 refillInterval := refillInterval s1;
                 settled := settled s1 |} in
    ({| allowed := true; remaining := tokens s2;
        retryAfter := None; error := None |}, s2)
  else
    ({| allowed := false; remaining := 0;
        retryAfter := Some (calculateRetryAfter s1);
        error := Some "RATE_LIMITED"%string |}, s1).

Definition getQueueSize (s : t) : nat := length (queue s).

Definition getStats (s : t) : RateLimitStats :=
  {| stats_requestsPerMinute := requestsPerMinute (config s);
     stats_burstLimit := burstLimit (config s);
     currentTokens := tokens s;
     queueSize := length (queue s);
     stats_lastRefillTime := lastRefillTime s |}.

Definition destroy (s : t) : t :=
  {| config := config s; tokens := tokens s;
     lastRefillTime := lastRefillTime s;
     queue := [];
     refillInterval := false;
     settled := settled s ++
                map (fun item =>
                       (waiter item,
                        {| allowed := false; remaining := 0;
                           retryAfter := None;
                           error := Some "RATE_LIMITER_DESTROYED"%string |}))
                    (queue s) |}.

(** What can happen to a limiter: a caller acquires at some clock value,
    the interval timer fires, a reader takes a snapshot, the owner
    destroys it. The timer fires only while it is armed. *)
Inductive op : Type :=
| Acquire (now : Z)
| Tick (now : Z)
| Stats
| QueueSize
| Destroy.

Definition step (s : t) (o : op) : t :=
  match o with
  | Acquire now => snd (acquireToken now s)
  | Tick now => if refillInterval s then refillTokens now s else s
  | Stats => s
  | QueueSize => s
  | Destroy => destroy s
  end.

(** The states observed after each operation of a schedule. *)
Fixpoint run (s : t) (ops : list op) : list t :=
  match ops with
  | [] => []
  | o :: ops' => let s' := step s o in s' :: run s' ops'
  end.

(** The results of acquiring [n] times at the same clock value. *)
Fixpoint acquireMany (n : nat) (now : Z) (s : t) : list RateLimitResult * t :=
  match n with
  | O => ([], s)
  | S n' =>
      let '(r, s1) := acquireToken now s in
      let '(rs, s2) := acquireMany n' now s1 in
      (r :: rs, s2)
  end.

(** Timer ticks alone, one per clock value of the list. *)
Definition ticks (s : t) (clock : list Z) : t :=
  fold_left (fun s now => step s (Tick now)) clock s.

(** No waiter is queued and none has been resolved. *)
Definition idle (s : t) : Prop := queue s = [] /\ settled s = [].

(** The limiter of the plugin (100 per minute, capacity 100) emptied at
    time 0, then left to its timer. *)
Definition drained : t := snd (acquireMany 100 0 (constructor 100 100 None 0)).

Definition everySecond (n : nat) : list Z :=
  map (fun k => 1000 * Z.of_nat k) (seq 1 n).

(** The clock value an operation reads, if it reads the clock. *)
Definition clockOf (o : op) : option Z :=
  match o with
  | Acquire now => Some now
  | Tick now => Some now
  | _ => None
  end.

(** A schedule whose clock values do not exceed [T]. *)
Definition notAfter (T : Z) (ops : list op) : bool :=
  forallb (fun o => match clockOf o with Some now => now <=? T | None => true end)
          ops.

(** The number of acquisitions of a schedule that were granted. *)
Fixpoint grants (s : t) (ops : list op) : nat :=
  match ops with
  | [] => 0
  | o :: ops' =>
      (match o with
       | Acquire now => if allowed (fst (acquireToken now s)) then 1 else 0
       | _ => 0
       end + grants (step s o) ops')%nat
  end.

(** The state in which a waiting caller finds the limiter: a token is
    there already, or the last refill is no later than the denial. *)
Definition waitedFrom (cfg : RateLimiterConfig) (now : Z) (s : t) : Prop :=
  idle s /\ config s = cfg /\ 0 <= tokens s
  /\ (1 <= tokens s \/ lastRefillTime s <= now).

End RateLimiter.

(** ** Strings as the clients read them *)

Module Js.

(** [String.prototype.includes] *)
Fixpoint includes (hay needle : string) : bool :=
  if String.prefix needle hay then true
  else match hay with
       | EmptyString => false
       | String _ rest => includes rest needle
       end.

(** [a || b] on an optional string: [undefined] and the empty string are
    falsy. *)
Definition or_else (a : option string) (b : option string) : option string :=
  match a with
  | Some s => if String.eqb s "" then b else Some s
  | None => b
  end.

Definition or_default (a : option string) (d : string) : string :=
  match or_else a None with
  | Some s => s
  | None => d
  end.

(** The decimal numeral of an integer. *)
Definition decimal (z : Z) : string := NilZero.string_of_int (Z.to_int z).

Definition nbDigits (a : Z) : Z := Z.of_nat (String.length (decimal a)).

Definition roundsTo (a v : Z) : bool :=
  match toDouble v with
  | JNum x => x =? a
  | _ => false
  end.

(** The [k]-digit numeral [s] for which [s * 10^(d - k)] is nearest to the
    [d]-digit double [a] among those that round to [a], if there is one;
    of two equally near the even one. *)
Definition shortestOfLength (a d k : Z) : option Z :=
  let scale := 10 ^ (d - k) in
  let lo := a / scale in
  let hi := lo + 1 in
  let okLo := roundsTo a (lo * scale) in
  let okHi := (hi <? 10 ^ k) && roundsTo a (hi * scale) in
  match okLo, okHi with
  | true, true =>
      let below := a - lo * scale in
      let above := hi * scale - a in
      Some (if below <? above then lo
            else if above <? below then hi
            else if Z.even lo then lo else hi)
  | true, false => Some lo
  | false, true => Some hi
  | false, false => None
  end.

(** The shortest such numeral and its length, trying lengths from [k]. *)
Fixpoint shortestFrom (fuel : nat) (a d k : Z) : Z * Z :=
  match fuel with
  | O => (a, d)
  | S fuel' =>
      match shortestOfLength a d k with
      | Some s => (s, k)
      | None => shortestFrom fuel' a d (k + 1)
      end
  end.

Fixpoint zeros (n : nat) : string :=
  match n with
  | O => EmptyString
  | S n' => String "0" (zeros n')
  end.

(** [Number.prototype.toString] of a double [a >= 2^53]: the shortest
    digits [s] that identify it, [s * 10^(n - k)] rounding to [a], written
    out with zeros up to 21 digits and in exponent form beyond. *)
Definition largeToString (a : Z) : string :=
  let d := nbDigits a in
  let '(s, k, n) :=
    if roundsTo a (10 ^ d) then (1, 1, d + 1)
    else let '(s, k) := shortestFrom 17 a d 1 in (s, k, d) in
  if n <=? 21 then (decimal s ++ zeros (Z.to_nat (n - k)))%string
  else
    match decimal s with
    | String c rest =>
        (String c (match rest with
                   | EmptyString => EmptyString
                   | _ => String "." rest
                   end)
         ++ "e+" ++ decimal (n - 1))%string
    | EmptyString => EmptyString
    end.

(** [Number.prototype.toString], and a number in a template string, for
    an integer: below 2^53 in magnitude every digit is printed; a larger
    one is printed as the double it is, or is nearest to. *)
Definition toString (z : Z) : string :=
  if Z.abs z <? 2 ^ 53 then decimal z
  else
    match toDouble z with
    | JNum x =>
        ((if (x <? 0)%Z then "-" else "") ++ largeToString (Z.abs x))%string
    | JInfinity => "Infinity"
    | JNegInfinity => "-Infinity"
    | JNaN => "NaN"
    end.

(** The characters [parseInt] skips at the start of its argument (the
    ASCII part of StrWhiteSpaceChar). *)
Definition isStrWhiteSpace (c : ascii) : bool :=
  let n := Z.of_N (N_of_ascii c) in
  ((9 <=? n) && (n <=? 13)) || (n =? 32).

Fixpoint trimStart (s : string) : string :=
  match s with
  | String c rest => if isStrWhiteSpace c then trimStart rest else s
  | EmptyString => s
  end.

(** The value of a character as a digit: 0-9, then letters in either
    case for 10-35. *)
Definition digitValue (c : ascii) : option Z :=
  let n := Z.of_N (N_of_ascii c) in
  if (48 <=? n) && (n <=? 57) then Some (n - 48)
  else if (97 <=? n) && (n <=? 122) then Some (n - 87)
  else if (65 <=? n) && (n <=? 90) then Some (n - 55)
  else None.

(** The longest prefix of radix-[R] digits, read as a number; [None] when
    that prefix is empty. *)
Fixpoint parseDigits (R : Z) (s : string) (acc : option Z) : option Z :=
  match s with
  | EmptyString => acc
  | String c rest =>
      match digitValue c with
      | Some d =>
          if d <? R
          then parseDigits R rest (Some (match acc with
                                         | Some a => a * R + d
                                         | None => d
                                         end))
          else acc
      | None => acc
      end
  end.

(** [parseInt(string)] with no radix argument: leading white space, an
    optional sign, an optional [0x]/[0X] prefix selecting radix 16, then
    digits; [NaN] when no digit follows.  The integer read is returned as
    the nearest double, as V8 computes it. *)
Definition parseInt (input : string) : jsnum :=
  let S0 := trimStart input in
  let '(sign, S1) := match S0 with
                     | String "-" rest => (-1, rest)
                     | String "+" rest => (1, rest)
                     | _ => (1, S0)
                     end in
  let '(R, S2) := match S1 with
                  | String "0" (String "x" rest) => (16, rest)
                  | String "0" (String "X" rest) => (16, rest)
                  | _ => (10, S1)
                  end in
  match parseDigits R S2 None with
  | Some n => toDouble (sign * n)
  | None => JNaN
  end.

(** The digits of a decimal numeral read from the left, after [a]. *)
Fixpoint horner (u : Decimal.uint) (a : Z) : Z :=
  match u with
  | Decimal.Nil => a
  | Decimal.D0 l => horner l (a * 10 + 0)
  | Decimal.D1 l => horner l (a * 10 + 1)
  | Decimal.D2 l => horner l (a * 10 + 2)
  | Decimal.D3 l => horner l (a * 10 + 3)
  | Decimal.D4 l => horner l (a * 10 + 4)
  | Decimal.D5 l => horner l (a * 10 + 5)
  | Decimal.D6 l => horner l (a * 10 + 6)
  | Decimal.D7 l => horner l (a * 10 + 7)
  | Decimal.D8 l => horner l (a * 10 + 8)
  | Decimal.D9 l => horner l (a * 10 + 9)
  end.


(** The number of occurrences of a character in a string. *)
Fixpoint count (c : ascii) (s : string) : nat :=
  match s with
  | EmptyString => 0%nat
  | String d rest => ((if Ascii.eqb c d then 1 else 0) + count c rest)%nat
  end.

(** The characters [encodeURIComponent] leaves as they are: letters,
    digits and [- _ . ! ~ * ' ( )]. *)
Definition isUnreserved (c : ascii) : bool :=
  let n := N_of_ascii c in
  ((65 <=? n) && (n <=? 90))%N || ((97 <=? n) && (n <=? 122))%N
  || ((48 <=? n) && (n <=? 57))%N
  || existsb (Ascii.eqb c) ["-"; "_"; "."; "!"; "~"; "*"; "'"; "("; ")"]%char.

Definition hexDigit (n : N) : ascii :=
  match String.get (N.to_nat n) "0123456789ABCDEF" with
  | Some c => c
  | None => "0"%char
  end.

(** The value of an upper-case hexadecimal digit. *)
Definition hexValue (c : ascii) : N :=
  let n := N_of_ascii c in
  if (n <? 58)%N then (n - 48)%N else (n - 55)%N.

(** The escape sequence of one byte. *)
Definition percentEncode (c : ascii) : string :=
  let n := N_of_ascii c in
  String "%" (String (hexDigit (n / 16)) (String (hexDigit (n mod 16)) EmptyString)).

(** [encodeURIComponent] on a well-formed string, given as its UTF-8
    bytes: every byte that is not an unreserved character is escaped. *)
Fixpoint encodeURIComponent (s : string) : string :=
  match s with
  | EmptyString => EmptyString
  | String c rest =>
      ((if isUnreserved c then String c EmptyString else percentEncode c)
       ++ encodeURIComponent rest)%string
  end.

End Js.

(** ** Typed errors (services/types.ts, as the clients build them) *)

Inductive JiraServiceError : Type :=
| AUTHENTICATION_ERROR (message : string) (status : Z)
| RATE_LIMIT_ERROR (message : string) (retryAfter : option jsnum)
                   (limit remaining : option jsnum)
| JIRA_API_ERROR (status : Z) (statusText : string) (message : string)
                 (errorMessages : option (list string)).

(** What a [throw] can carry out of the client: a typed error, an [Error]
    raised by the platform (a failed [requestUrl], a failed JSON getter),
    or [undefined] (the unassigned [lastError]). *)
Inductive thrown : Type :=
| ServiceError (e : JiraServiceError)
| JsError (message : string) (status : option Z)
| Undefined.

Inductive completion (A : Type) : Type :=
| Return (a : A)
| Throw (e : thrown).
Arguments Return {A} a.
Arguments Throw {A} e.

(** What a logical request does to the outside, in order. *)
Inductive effect : Type :=
| EvAcquire (granted : bool)
| EvTransport (attempt : nat)
| EvSleep (ms : Z).

(** ** The HTTP executor *)

Module ObsidianHttpClient.

(** The fields of a parsed body the client reads. *)
Record JsonBody : Type := {
  body_message : option string;
  body_errorMessages : option (list string)
}.

(** The [json] getter of a response: the parsed body ([None] for a
    falsy one such as [null]) or a thrown [SyntaxError]. *)
Inductive JsonGetter : Type :=
| JsonValue (b : option JsonBody)
| JsonThrows (message : string).

Record RequestUrlResponse : Type := {
  status : Z;
  headers : gmap string string;
  json : JsonGetter;
  text : string
}.

(** One call of [requestUrl] with [throw: false]: a response whatever
    its status, or a rejection. *)
Inductive TransportOutcome : Type :=
| Response (r : RequestUrlResponse)
| Rejects (message : string) (status : option Z).

Inductive ResponseData : Type :=
| JsonData (b : option JsonBody)
| TextData (s : string).

Definition emptyBody : JsonBody :=
  {| body_message := None; body_errorMessages := None |}.

(** [errorData.message || errorData.errorMessages?.[0] || fallback] *)
Definition errorMessage (errorData : JsonBody) (fallback : string) : string :=
  Js.or_default
    (Js.or_else (body_message errorData)
                (match body_errorMessages errorData with
                 | Some l => head l
                 | None => None
                 end))
    fallback.

(** [parseInt(headers[name] || dflt)] *)
Definition headerInt (h : gmap string string) (name dflt : string) : jsnum :=
  Js.parseInt (Js.or_default (h !! name) dflt).

Definition handleErrorResponse (response : RequestUrlResponse) : JiraServiceError :=
  let errorData :=
    match json response with
    | JsonValue (Some b) => b
    | JsonValue None => emptyBody
    | JsonThrows _ =>
        {| body_message :=
             Some (Js.or_default (Some (text response))
                                 (Js.toString (status response)));
           body_errorMessages := None |}
    end in
  if (status response =? 401) || (status response =? 403) then
    AUTHENTICATION_ERROR (errorMessage errorData "Authentication failed")
                         (status response)
  else if status response =? 429 then
    RATE_LIMIT_ERROR "Rate limit exceeded"
      (Some (jsnum_mul (headerInt (headers response) "retry-after" "60") 1000))
      (Some (headerInt (headers response) "x-ratelimit-limit" "100"))
      (Some (headerInt (headers response) "x-ratelimit-remaining" "0"))
  else
    JIRA_API_ERROR (status response) (Js.toString (status response))
                   (errorMessage errorData "API error occurred")
                   (body_errorMessages errorData).

Definition thrownMessage (e : thrown) : option string :=
  match e with
  | ServiceError (AUTHENTICATION_ERROR m _) => Some m
  | ServiceError (RATE_LIMIT_ERROR m _ _ _) => Some m
  | ServiceError (JIRA_API_ERROR _ _ m _) => Some m
  | JsError m _ => Some m
  | Undefined => None
  end.

Definition thrownStatus (e : thrown) : option Z :=
  match e with
  | ServiceError (AUTHENTICATION_ERROR _ st) => Some st
  | ServiceError (RATE_LIMIT_ERROR _ _ _ _) => None
  | ServiceError (JIRA_API_ERROR st _ _ _) => Some st
  | JsError _ st => st
  | Undefined => None
  end.

Definition isRetryableError (e : thrown) : bool :=
  match e with
  | Undefined => false
  | _ =>
      match thrownMessage e with
      | Some m => Js.includes m "network" || Js.includes m "timeout"
      | None => false
      end
      || match thrownStatus e with
         | Some st => 500 <=? st
         | None => false
         end
  end.

(** [Math.min(1000 * Math.pow(2, attempt), 30000)] *)
Definition calculateRetryDelay (attempt : nat) : Z :=
  let baseDelay := 1000 in
  let maxDelay := 30000 in
  let delay := baseDelay * 2 ^ Z.of_nat attempt in
  Z.min delay maxDelay.

Section Request.

(** [transport k] is what the [k]-th call of [requestUrl] made for this
    logical request does; [maxRetries] is
    [options.retries ?? config.maxRetries]. *)
Variable transport : nat -> TransportOutcome.
Variable maxRetries : Z.

(** The [catch] clause of the loop body; [continue] runs the rest of
    the loop with the new [lastError]. *)
Definition catchClause (attempt : nat) (e : thrown)
    (continue : thrown -> completion ResponseData * list effect)
  : completion ResponseData * list effect :=
  if maxRetries <=? Z.of_nat attempt then (Throw e, [])
  else if isRetryableError e then
    let delay := calculateRetryDelay attempt in
    let '(r, tr) := continue e in
    (r, EvSleep delay :: tr)
  else (Throw e, []).

(** The [for (attempt = 0; attempt <= maxRetries; attempt++)] loop from
    a given [attempt] on, with [fuel] bounding the iterations left, and
    the [throw lastError] after it. *)
Fixpoint requestFrom (fuel : nat) (attempt : nat) (lastError : thrown)
  : completion ResponseData * list effect :=
  match fuel with
  | O => (Throw lastError, [])
  | S fuel' =>
      if Z.of_nat attempt <=? maxRetries then
        let continue := requestFrom fuel' (S attempt) in
        let '(r, tr) :=
          match transport attempt with
          | Rejects m st => catchClause attempt (JsError m st) continue
          | Response response =>
              if (200 <=? status response) && (status response <? 300) then
                match headers response !! "content-type" with
                | Some ct =>
                    if Js.includes ct "application/json" then
                      match json response with
                      | JsonValue b => (Return (JsonData b), [])
                      | JsonThrows m =>
                          catchClause attempt (JsError m None) continue
                      end
                    else (Return (TextData (text response)), [])
                | None => (Return (TextData (text response)), [])
                end
              else
                let error := handleErrorResponse response in
                if (400 <=? status response) && (status response <? 500) then
                  catchClause attempt (ServiceError error) continue
                else if (Z.of_nat attempt <? maxRetries)
                        && (500 <=? status response) then
                  let delay := calculateRetryDelay attempt in
                  let '(r, tr) := continue lastError in
                  (r, EvSleep delay :: tr)
                else catchClause attempt (ServiceError error) continue
          end in
        (r, EvTransport attempt :: tr)
      else (Throw lastError, [])
  end.

(** The loop runs at most [maxRetries + 1] times. *)
Definition request : completion ResponseData * list effect :=
  requestFrom (Z.to_nat (maxRetries + 1)) 0 Undefined.

End Request.

Definition isTransport (e : effect) : bool :=
  match e with EvTransport _ => true | _ => false end.

(** The number of [requestUrl] calls in a trace. *)
Definition transportCalls (tr : list effect) : nat :=
  length (List.filter isTransport tr).

(** Responses and transports used as test data. *)
Definition plainResponse (st : Z) : RequestUrlResponse :=
  {| status := st; headers := ∅; json := JsonValue None; text := "" |}.

Definition always (r : RequestUrlResponse) : nat -> TransportOutcome :=
  fun _ => Response r.

Definition sessionTimeout401 : RequestUrlResponse :=
  {| status := 401; headers := ∅;
     json := JsonValue (Some {| body_message := Some "Session timeout"%string;
                                body_errorMessages := None |});
     text := "" |}.

Definition withRetryAfter (value : string) : RequestUrlResponse :=
  {| status := 429; headers := {[ "retry-after"%string := value ]};
     json := JsonValue None; text := "" |}.

Definition dated429 : RequestUrlResponse :=
  withRetryAfter "Wed, 21 Oct 2015 07:28:00 GMT".


(** What one pass through the [try] block yields for one outcome of
    [requestUrl], before the [catch] clause decides about a retry: the data
    of a 2xx response, or the value thrown. *)
Definition attemptResult (o : TransportOutcome) : completion ResponseData :=
  match o with
  | Rejects m st => Throw (JsError m st)
  | Response response =>
      if (200 <=? status response) && (status response <? 300) then
        match headers response !! "content-type" with
        | Some ct =>
            if Js.includes ct "application/json" then
              match json response with
              | JsonValue b => Return (JsonData b)
              | JsonThrows m => Throw (JsError m None)
              end
            else Return (TextData (text response))
        | None => Return (TextData (text response))
        end
      else Throw (ServiceError (handleErrorResponse response))
  end.


(** [buildUrl]: [params] holds the entries of [options.params] in the
    order of [Object.entries], each value as the string it converts to. *)
Definition queryString (entries : list (string * string)) : string :=
  String.concat "&"
    (map (fun '(key, value) =>
            (Js.encodeURIComponent key ++ "=" ++ Js.encodeURIComponent value)%string)
         entries).

Definition buildUrl (baseUrl path : string)
    (params : option (list (string * string))) : string :=
  let url := if String.prefix "http" path then path else (baseUrl ++ path)%string in
  match params with
  | None | Some [] => url
  | Some entries => (url ++ "?" ++ queryString entries)%string
  end.

End ObsidianHttpClient.

(** ** The axios-based client (services/httpClient.ts) *)

Module HttpClient.

(** [createRateLimitErrorFromResponse], from the headers of
    [error.response], at the clock value [now].  The object literal
    evaluates [new Date(Date.now() + retryAfter).toISOString()] for its
    [resetTime] field, which throws a RangeError ("Invalid time value" in
    V8) when the sum is no time value, as when [retryAfter] is NaN.  The
    constant fields [queueSize] and [burstLimit] are left out. *)
Definition createRateLimitErrorFromResponse (now : Z) (headers : gmap string string)
  : completion JiraServiceError :=
  let retryAfter :=
    jsnum_mul (ObsidianHttpClient.headerInt headers "retry-after" "60") 1000 in
  let limit := ObsidianHttpClient.headerInt headers "x-ratelimit-limit" "100" in
  let remaining :=
    ObsidianHttpClient.headerInt headers "x-ratelimit-remaining" "0" in
  if isTimeValue (jsnum_add now retryAfter) then
    Return (RATE_LIMIT_ERROR "Rate limit exceeded" (Some retryAfter)
                             (Some limit) (Some remaining))
  else Throw (JsError "Invalid time value" None).

(** *** The retry loop of the axios-based client *)

(** [error.response] of an axios error. *)
Record AxiosResponse : Type := {
  ax_status : Z;
  ax_statusText : string;
  ax_data : option ObsidianHttpClient.JsonBody;
  ax_headers : gmap string string
}.

(** The typed errors this client builds: those of the other client and
    NETWORK_ERROR. *)
Inductive HttpServiceError : Type :=
| Service (e : JiraServiceError)
| NETWORK_ERROR (message : string) (code : option string) (url : option string).

(** A value a [catch] of this client can receive: an error for which
    [axios.isAxiosError] holds, with its optional response; a typed error
    object, which has neither the axios mark nor a [response]; any other
    thrown value, with the [message] and [code] it may carry. *)
Inductive caught : Type :=
| FromAxios (message : option string) (code : option string)
            (response : option AxiosResponse) (url : option string)
| Typed (e : HttpServiceError)
| Other (message : option string) (code : option string).

Definition typedMessage (e : HttpServiceError) : string :=
  match e with
  | Service (AUTHENTICATION_ERROR m _) => m
  | Service (RATE_LIMIT_ERROR m _ _ _) => m
  | Service (JIRA_API_ERROR _ _ m _) => m
  | NETWORK_ERROR m _ _ => m
  end.

(** [error.message], [error.code] and [error.config?.url] of a caught
    value. *)
Definition caughtMessage (error : caught) : option string :=
  match error with
  | FromAxios m _ _ _ => m
  | Typed e => Some (typedMessage e)
  | Other m _ => m
  end.

Definition caughtCode (error : caught) : option string :=
  match error with
  | FromAxios _ c _ _ => c
  | Typed (NETWORK_ERROR _ c _) => c
  | Typed _ => None
  | Other _ c => c
  end.

Definition caughtUrl (error : caught) : option string :=
  match error with
  | FromAxios _ _ _ u => u
  | _ => None
  end.

Definition createNetworkError (error : caught) : HttpServiceError :=
  NETWORK_ERROR (Js.or_default (caughtMessage error) "Network error occurred")
                (caughtCode error) (caughtUrl error).

(** [data?.errorMessages?.[0] || error.message || fallback] *)
Definition responseMessage (data : option ObsidianHttpClient.JsonBody)
    (message : option string) (fallback : string) : string :=
  Js.or_default
    (Js.or_else
       (match data with
        | Some b => match ObsidianHttpClient.body_errorMessages b with
                    | Some l => head l
                    | None => None
                    end
        | None => None
        end)
       message)
    fallback.

(** [handleError] at the clock value [now]: the typed error it returns,
    or what [createRateLimitErrorFromResponse] throws. *)
Definition handleError (now : Z) (error : caught) : completion HttpServiceError :=
  match error with
  | FromAxios message code response url =>
      match response with
      | None => Return (createNetworkError error)
      | Some resp =>
          let status := ax_status resp in
          let data := ax_data resp in
          if (status =? 401) || (status =? 403) then
            Return (Service (AUTHENTICATION_ERROR
                               (responseMessage data message "Authentication failed")
                               status))
          else if status =? 429 then
            match createRateLimitErrorFromResponse now (ax_headers resp) with
            | Return e => Return (Service e)
            | Throw t => Throw t
            end
          else
            Return (Service (JIRA_API_ERROR
                               status (ax_statusText resp)
                               (responseMessage data message "API error occurred")
                               (match data with
                                | Some b => ObsidianHttpClient.body_errorMessages b
                                | None => None
                                end)))
      end
  | _ => Return (createNetworkError error)
  end.

(** A value thrown inside this client, as a later [catch] receives it. *)
Definition caughtOf (t : thrown) : caught :=
  match t with
  | ServiceError e => Typed (Service e)
  | JsError message _ => Other (Some message) None
  | Undefined => Other None None
  end.

(** The rejection handler of the response interceptor,
    [(error) => Promise.reject(this.handleError(error))]: the value the
    promise of [axiosInstance.request] is rejected with. *)
Definition onRejected (now : Z) (error : caught) : caught :=
  match handleError now error with
  | Return e => Typed e
  | Throw t => caughtOf t
  end.

Definition responseStatus (error : caught) : option Z :=
  match error with
  | FromAxios _ _ (Some resp) _ => Some (ax_status resp)
  | _ => None
  end.

Definition isClientError (error : caught) : bool :=
  match responseStatus error with
  | Some st => (400 <=? st) && (st <? 500)
  | None => false
  end.

Definition isServerError (error : caught) : bool :=
  match responseStatus error with
  | Some st => 500 <=? st
  | None => false
  end.

Definition isAuthError (error : caught) : bool :=
  match responseStatus error with
  | Some st => (st =? 401) || (st =? 403)
  | None => false
  end.

Definition isRateLimitError (error : caught) : bool :=
  match responseStatus error with
  | Some st => st =? 429
  | None => false
  end.

Definition isNetworkError (error : caught) : bool :=
  match error with
  | FromAxios _ _ None _ => true
  | _ => false
  end.

(** What [request] ends with: the data of a response, a caught value
    thrown again, or the unassigned [lastError]. *)
Inductive outcome (T : Type) : Type :=
| Returned (data : T)
| Rethrown (error : caught)
| ThrownUndefined.
Arguments Returned {T} data.
Arguments Rethrown {T} error.
Arguments ThrownUndefined {T}.

(** One call of [axiosInstance.request]. *)
Inductive AxiosOutcome (T : Type) : Type :=
| Resolves (data : T)
| RejectsWith (error : caught).
Arguments Resolves {T} data.
Arguments RejectsWith {T} error.

Section Request.

Context {T : Type}.
Variable axiosRequest : nat -> AxiosOutcome T.
Variable maxRetries : Z.

Fixpoint requestFrom (fuel : nat) (attempt : nat) (lastError : option caught)
  : outcome T * list effect :=
  match fuel with
  | O => (match lastError with Some e => Rethrown e | None => ThrownUndefined end, [])
  | S fuel' =>
      if Z.of_nat attempt <=? maxRetries then
        let '(r, tr) :=
          match axiosRequest attempt with
          | Resolves data => (Returned data, [])
          | RejectsWith error =>
              if isClientError error || isAuthError error then (Rethrown error, [])
              else if isRateLimitError error then (Rethrown error, [])
              else if (Z.of_nat attempt <? maxRetries)
                      && (isServerError error || isNetworkError error) then
                let delay := ObsidianHttpClient.calculateRetryDelay attempt in
                let '(r, tr) := requestFrom fuel' (S attempt) (Some error) in
                (r, EvSleep delay :: tr)
              else (Rethrown error, [])
          end in
        (r, EvTransport attempt :: tr)
      else (match lastError with Some e => Rethrown e | None => ThrownUndefined end, [])
  end.

Definition request : outcome T * list effect :=
  requestFrom (Z.to_nat (maxRetries + 1)) 0 None.

End Request.


(** What one pass through the [try] block yields for one outcome of
    [axiosInstance.request]. *)
Definition attemptResult {T : Type} (o : AxiosOutcome T) : outcome T :=
  match o with
  | Resolves data => Returned data
  | RejectsWith error => Rethrown error
  end.

(** [axiosInstance.request] as [setupInterceptors] leaves it, over an
    adapter that makes the calls; [now k] is the clock when call [k]
    fails.  No rate limiter is set ([setRateLimiter] is never called), so
    the request interceptor hands the configuration on; the response
    interceptor passes a response through and replaces a rejection. *)
Definition axiosInstanceRequest {T : Type} (now : nat -> Z)
    (adapter : nat -> AxiosOutcome T) : nat -> AxiosOutcome T :=
  fun k =>
    match adapter k with
    | Resolves data => Resolves data
    | RejectsWith error => RejectsWith (onRejected (now k) error)
    end.

(** Axios errors used as test data. *)
Definition axiosStatus (st : Z) : caught :=
  FromAxios (Some "Request failed") None
            (Some {| ax_status := st; ax_statusText := "";
                     ax_data := None; ax_headers := ∅ |})
            None.


End HttpClient.

(** ** The service: rate-limit gate and request deduplication *)

Module JiraApiService.

Import ObsidianHttpClient.

(** *** [checkRateLimit] and the function every operation wraps *)

Definition checkRateLimit (now : Z) (rateLimiter : RateLimiter.t)
  : completion unit * RateLimiter.t * list effect :=
  let '(rateLimitResult, rateLimiter') :=
    RateLimiter.acquireToken now rateLimiter in
  if RateLimiter.allowed rateLimitResult then
    (Return tt, rateLimiter', [EvAcquire true])
  else
    (Throw (ServiceError
              (RATE_LIMIT_ERROR "Rate limit exceeded"
                                (RateLimiter.retryAfter rateLimitResult)
                                None None)),
     rateLimiter', [EvAcquire false]).

(** The function [getIssue] hands to [deduplicateRequest] (the other
    operations wrap the same two steps around their own verb and path):
    [await this.checkRateLimit(); return await this.httpClient.get(...)]. *)
Definition getIssueRequestFn (now : Z) (rateLimiter : RateLimiter.t)
    (transport : nat -> TransportOutcome) (maxRetries : Z)
  : completion ResponseData * RateLimiter.t * list effect :=
  match checkRateLimit now rateLimiter with
  | (Return _, rateLimiter', tr) =>
      let '(r, tr') := request transport maxRetries in
      (r, rateLimiter', tr ++ tr')
  | (Throw e, rateLimiter', tr) => (Throw e, rateLimiter', tr)
  end.

Definition isAcquire (e : effect) : bool :=
  match e with EvAcquire _ => true | _ => false end.

Definition acquireCalls (tr : list effect) : nat :=
  length (List.filter isAcquire tr).

(** Whether every transport attempt of a trace has a call of
    [acquireToken] of its own before it: [armed] tells whether such a
    call has been seen since the last attempt. *)
Fixpoint eachAttemptAcquires (armed : bool) (tr : list effect) : bool :=
  match tr with
  | [] => true
  | EvAcquire _ :: tr' => eachAttemptAcquires true tr'
  | EvTransport _ :: tr' => armed && eachAttemptAcquires false tr'
  | EvSleep _ :: tr' => eachAttemptAcquires armed tr'
  end.

(** *** [deduplicateRequest] over a store of promises *)

Inductive settlement : Type :=
| Fulfilled (value : string)
| Rejected (reason : string).

(** What calling a wrapped function does: it returns a promise, settled
    later by the event loop, or it throws before returning one. *)
Inductive behaviour : Type :=
| ReturnsPromise
| ThrowsSync (reason : string).

Record requestFn : Type := {
  fn_id : nat;
  fn_behaviour : behaviour
}.

(** What the caller of the [async] method holds: a promise that follows
    the shared [requestPromise], or one rejected at once. *)
Inductive future : Type :=
| Shared (requestPromise : nat)
| Failed (reason : string).

(** [requestDeduplicationMap] and the promises it refers to.
    [cleanup] holds, for each [requestPromise] still pending, the
    [cacheKey] its [finally] callback deletes; [outcome] holds the
    settled ones; [invoked] logs each call of a wrapped function, most
    recent first. *)
Record t : Type := {
  requestDeduplicationMap : gmap string nat;
  cleanup : gmap nat string;
  outcome : gmap nat settlement;
  nextPromise : nat;
  invoked : list (string * nat)
}.

Definition init : t :=
  {| requestDeduplicationMap := ∅; cleanup := ∅; outcome := ∅;
     nextPromise := 0; invoked := [] |}.

(** A key with an entry: the stored promise is returned and [fn] is not
    called. Otherwise [requestFn()] is called first; if it throws, the
    [async] method rejects and nothing is stored; if it returns a promise,
    [.finally] registers the cleanup and the map stores [requestPromise].
    The functions the service passes are [async] closures, which return
    a promise. *)
Definition deduplicateRequest (cacheKey : string) (fn : requestFn) (s : t)
  : future * t :=
  match requestDeduplicationMap s !! cacheKey with
  | Some p => (Shared p, s)
  | None =>
      let log := (cacheKey, fn_id fn) :: invoked s in
      match fn_behaviour fn with
      | ThrowsSync reason =>
          (Failed reason,
           {| requestDeduplicationMap := requestDeduplicationMap s;
              cleanup := cleanup s; outcome := outcome s;
              nextPromise := nextPromise s; invoked := log |})
      | ReturnsPromise =>
          let requestPromise := nextPromise s in
          (Shared requestPromise,
           {| requestDeduplicationMap :=
                <[cacheKey := requestPromise]> (requestDeduplicationMap s);
              cleanup := <[requestPromise := cacheKey]> (cleanup s);
              outcome := outcome s;
              nextPromise := S requestPromise;
              invoked := log |})
      end
  end.

(** The wrapped function's promise settles: the [finally] callback
    deletes the key, then [requestPromise] settles the same way. A
    promise settles once. *)
Definition settle (p : nat) (o : settlement) (s : t) : t :=
  match cleanup s !! p with
  | Some cacheKey =>
      {| requestDeduplicationMap := delete cacheKey (requestDeduplicationMap s);
         cleanup := delete p (cleanup s);
         outcome := <[p := o]> (outcome s);
         nextPromise := nextPromise s;
         invoked := invoked s |}
  | None => s
  end.

(** [destroy]: [this.requestDeduplicationMap.clear()] *)
Definition destroy (s : t) : t :=
  {| requestDeduplicationMap := ∅;
     cleanup := cleanup s; outcome := outcome s;
     nextPromise := nextPromise s; invoked := invoked s |}.

Inductive event : Type :=
| Call (cacheKey : string) (fn : requestFn)
| Settle (p : nat) (o : settlement)
| DestroyService.

Definition step (s : t) (e : event) : t :=
  match e with
  | Call cacheKey fn => snd (deduplicateRequest cacheKey fn s)
  | Settle p o => settle p o s
  | DestroyService => destroy s
  end.

Definition exec (s : t) (evs : list event) : t := fold_left step evs s.

(** The futures handed to the callers of a schedule that used [k]. *)
Fixpoint futuresFor (k : string) (s : t) (evs : list event) : list future :=
  match evs with
  | [] => []
  | e :: evs' =>
      match e with
      | Call cacheKey fn =>
          if String.eqb cacheKey k
          then fst (deduplicateRequest cacheKey fn s) :: futuresFor k (step s e) evs'
          else futuresFor k (step s e) evs'
      | _ => futuresFor k (step s e) evs'
      end
  end.

(** The wrapped functions invoked for [k], most recent first. *)
Definition invokedFor (k : string) (s : t) : list nat :=
  omap (fun '(cacheKey, f) => if String.eqb cacheKey k then Some f else None)
       (invoked s).

Definition futureSettlement (s : t) (fut : future) : option settlement :=
  match fut with
  | Shared p => outcome s !! p
  | Failed reason => Some (Rejected reason)
  end.

(** A schedule during which promise [p] stays in flight: it neither
    settles [p] nor destroys the service. *)
Definition keepsInFlight (p : nat) (evs : list event) : bool :=
  forallb (fun e => match e with
                    | Settle q _ => negb (q =? p)%nat
                    | DestroyService => false
                    | Call _ _ => true
                    end) evs.

(** A schedule that does not settle [p]. *)
Definition neverSettles (p : nat) (evs : list event) : bool :=
  forallb (fun e => match e with
                    | Settle q _ => negb (q =? p)%nat
                    | _ => true
                    end) evs.

(** The entries of the map under one key. *)
Definition entriesFor (k : string) (s : t) : list (string * nat) :=
  List.filter (fun kv => String.eqb (fst kv) k)
              (map_to_list (requestDeduplicationMap s)).

(** No wrapped function called for [k] is still pending. *)
Definition idleKey (k : string) (s : t) : bool :=
  forallb (fun kv => negb (String.eqb (snd kv) k)) (map_to_list (cleanup s)).

(** A schedule that leaves the promise behind a future pending. *)
Definition staysPending (fut : future) (evs : list event) : bool :=
  match fut with
  | Shared p => neverSettles p evs
  | Failed _ => true
  end.

(** A history in which the service is never destroyed. *)
Definition destroyFree (evs : list event) : bool :=
  forallb (fun e => match e with DestroyService => false | _ => true end) evs.

(** The callers of a schedule that used [k]. *)
Definition callers (k : string) (evs : list event) : nat :=
  length (List.filter (fun e => match e with
                                | Call cacheKey _ => String.eqb cacheKey k
                                | _ => false
                                end) evs).

(** What holds of the store in every reachable state: an entry of the map
    points to a pending promise whose cleanup deletes that entry's key, and
    promise names below [nextPromise] are the only ones in use. *)
Record wellFormed (s : t) : Prop := {
  wf_entry : forall k p,
    requestDeduplicationMap s !! k = Some p -> cleanup s !! p = Some k;
  wf_cleanup_fresh : forall p k, cleanup s !! p = Some k -> (p < nextPromise s)%nat;
  wf_pending : forall p k, cleanup s !! p = Some k -> outcome s !! p = None;
  wf_outcome_fresh : forall p o, outcome s !! p = Some o -> (p < nextPromise s)%nat
}.

(** While the shared promise [p] of key [k] is in flight. *)
Record inFlight (k : string) (p : nat) (s : t) : Prop := {
  fl_entry : requestDeduplicationMap s !! k = Some p;
  fl_cleanup : cleanup s !! p = Some k;
  fl_only : forall q, cleanup s !! q = Some k -> q = p;
  fl_fresh : forall q k', cleanup s !! q = Some k' -> (q < nextPromise s)%nat
}.

(** [n] calls of [checkRateLimit] at one clock value, as [n] operations
    started in the same turn of the event loop make them. *)
Fixpoint checkMany (n : nat) (now : Z) (rateLimiter : RateLimiter.t)
  : list (completion unit) * RateLimiter.t :=
  match n with
  | O => ([], rateLimiter)
  | S n' =>
      let '(r, rateLimiter', _) := checkRateLimit now rateLimiter in
      let '(rs, rateLimiter'') := checkMany n' now rateLimiter' in
      (r :: rs, rateLimiter'')
  end.

(** *** The deduplicated operations and their cache keys *)

(** The methods that call [deduplicateRequest], with the arguments their
    keys are built from. [updateData] names the payload of an update;
    [searchParams] is the text [JSON.stringify] gives; [maxResults] is an
    integer when present. *)
Inductive operation : Type :=
| GetIssue (issueIdOrKey : string)
| UpdateIssue (issueIdOrKey : string) (updateData : nat)
| GetTransitions (issueIdOrKey : string)
| GetProjects
| GetProject (projectIdOrKey : string)
| GetCurrentUser
| SearchUsers (query : string) (maxResults : option Z)
| SearchIssues (searchParams : string)
| GetComments (issueIdOrKey : string).

(** [maxResults || 'default'] inside a template string *)
Definition maxResultsLabel (maxResults : option Z) : string :=
  match maxResults with
  | Some n => if n =? 0 then "default" else Js.toString n
  | None => "default"
  end.

Definition cacheKey (o : operation) : string :=
  match o with
  | GetIssue issueIdOrKey => "getIssue:" ++ issueIdOrKey
  | UpdateIssue issueIdOrKey _ => "updateIssue:" ++ issueIdOrKey
  | GetTransitions issueIdOrKey => "getTransitions:" ++ issueIdOrKey
  | GetProjects => "getProjects"
  | GetProject projectIdOrKey => "getProject:" ++ projectIdOrKey
  | GetCurrentUser => "getCurrentUser"
  | SearchUsers query maxResults =>
      "searchUsers:" ++ query ++ ":" ++ maxResultsLabel maxResults
  | SearchIssues searchParams => "searchIssues:" ++ searchParams
  | GetComments issueIdOrKey => "getComments:" ++ issueIdOrKey
  end.

(** [maxResults] absent or zero: [if (maxResults)] fails and no
    [maxResults] parameter is sent. *)
Definition noMaxResults (maxResults : option Z) : Prop :=
  maxResults = None \/ maxResults = Some 0.

(** Two operations that ask the server for the same thing, the payload
    of an update left aside. *)
Definition sameRequest (a b : operation) : Prop :=
  match a, b with
  | GetIssue x, GetIssue y => x = y
  | UpdateIssue x _, UpdateIssue y _ => x = y
  | GetTransitions x, GetTransitions y => x = y
  | GetProjects, GetProjects => True
  | GetProject x, GetProject y => x = y
  | GetCurrentUser, GetCurrentUser => True
  | SearchUsers q m, SearchUsers q' m' =>
      q = q' /\ (m = m' \/ (noMaxResults m /\ noMaxResults m'))
  | SearchIssues x, SearchIssues y => x = y
  | GetComments x, GetComments y => x = y
  | _, _ => False
  end.

(** The numeric argument of an operation is a safe integer
    ([Number.isSafeInteger]), one below 2^53 in magnitude. *)
Definition safeArguments (o : operation) : bool :=
  match o with
  | SearchUsers _ (Some maxResults) => Z.abs maxResults <? 2 ^ 53
  | _ => true
  end.

(** The wrapped function of an operation: the closure is named after the
    payload it would send (0 for the reads). *)
Definition requestFnOf (o : operation) : requestFn :=
  {| fn_id := match o with UpdateIssue _ updateData => updateData | _ => 0%nat end;
     fn_behaviour := ReturnsPromise |}.

(** A call of one of these methods, as an event of the store. *)
Definition perform (o : operation) : event := Call (cacheKey o) (requestFnOf o).

(** Whether a character occurs in a string. *)
Fixpoint occurs (c : ascii) (s : string) : bool :=
  match s with
  | EmptyString => false
  | String c' rest => Ascii.eqb c c' || occurs c rest
  end.


(** *** The batch operations *)




Section Batch.

(** The loop the three batch methods share, for their batch size, their
    pause and their operation.  [settled i item] is what the operation
    started for the item at position [i] settles to; the [try]/[catch]
    around it turns either outcome into the [result] of an entry. *)
Context {A R : Type}.
Variable batchSize : nat.
Variable pause : Z.
Variable issueIdOrKey : A -> string.
Variable settled : nat -> A -> completion R.




End Batch.




End JiraApiService.

(** * Properties *)

(** ** The token bucket *)

Module RateLimiterSpec.

Import RateLimiter.

Lemma floor_of_at_least_one (q : Q) : Qle_bool 1 q = true -> 1 <= Qfloor q.
Proof.
  intros H. apply Qle_bool_iff in H.
  apply Qfloor_resp_le in H. exact H.
Qed.

Lemma processQueue_loop_tokens (q : list QueueItem) :
  forall tok, 0 <= tok ->
    0 <= snd (fst (processQueue_loop q tok)) <= tok.
Proof.
  induction q as [|item rest IH]; intros tok Htok; simpl.
  - lia.
  - destruct (0 <? tok) eqn:Hpos; simpl; [|lia].
    apply Z.ltb_lt in Hpos.
    specialize (IH (tok - 1) ltac:(lia)).
    destruct (processQueue_loop rest (tok - 1)) as [[q' tok'] rs]; simpl in *.
    lia.
Qed.

Lemma processQueue_config (s : t) : config (processQueue s) = config s.
Proof.
  unfold processQueue.
  destruct (processQueue_loop (queue s) (tokens s)) as [[q' tok'] rs].
  reflexivity.
Qed.

Lemma processQueue_tokens (s : t) :
  0 <= tokens s -> 0 <= tokens (processQueue s) <= tokens s.
Proof.
  intros H. pose proof (processQueue_loop_tokens (queue s) (tokens s) H) as B.
  unfold processQueue.
  destruct (processQueue_loop (queue s) (tokens s)) as [[q' tok'] rs].
  exact B.
Qed.

Lemma refillTokens_config (now : Z) (s : t) :
  config (refillTokens now s) = config s.
Proof.
  unfold refillTokens. destruct (Qle_bool 1 (tokensToAdd s now)).
  - rewrite processQueue_config. reflexivity.
  - reflexivity.
Qed.

Lemma refillTokens_bounds (now : Z) (s : t) :
  0 <= tokens s <= burstLimit (config s) ->
  0 <= tokens (refillTokens now s) <= burstLimit (config s).
Proof.
  intros [Hlo Hhi]. unfold refillTokens.
  destruct (Qle_bool 1 (tokensToAdd s now)) eqn:Hadd; [|lia].
  apply floor_of_at_least_one in Hadd.
  match goal with |- context [processQueue ?s1] =>
    pose proof (processQueue_tokens s1) as B end.
  cbn [tokens] in B. lia.
Qed.

Lemma acquireToken_config (now : Z) (s : t) :
  config (snd (acquireToken now s)) = config s.
Proof.
  unfold acquireToken.
  destruct (0 <? tokens (refillTokens now s)); simpl;
    apply refillTokens_config.
Qed.

Lemma acquireToken_bounds (now : Z) (s : t) :
  0 <= tokens s <= burstLimit (config s) ->
  0 <= tokens (snd (acquireToken now s)) <= burstLimit (config s).
Proof.
  intros H. pose proof (refillTokens_bounds now s H) as B.
  unfold acquireToken.
  destruct (0 <? tokens (refillTokens now s)) eqn:Hpos; simpl; [|exact B].
  apply Z.ltb_lt in Hpos. lia.
Qed.

Lemma step_config (s : t) (o : op) : config (step s o) = config s.
Proof.
  destruct o; simpl; try reflexivity.
  - apply acquireToken_config.
  - destruct (refillInterval s); [apply refillTokens_config | reflexivity].
Qed.

Lemma step_bounds (s : t) (o : op) :
  0 <= tokens s <= burstLimit (config s) ->
  0 <= tokens (step s o) <= burstLimit (config s).
Proof.
  intros H. destruct o; simpl; try exact H.
  - apply acquireToken_bounds, H.
  - destruct (refillInterval s); [apply refillTokens_bounds, H | exact H].
Qed.

Lemma run_bounds (ops : list op) :
  forall s, 0 <= tokens s <= burstLimit (config s) ->
    Forall (fun s' => 0 <= tokens s' <= burstLimit (config s)) (run s ops).
Proof.
  induction ops as [|o ops IH]; intros s H; simpl.
  - constructor.
  - constructor.
    + apply step_bounds, H.
    + rewrite <- (step_config s o). apply IH.
      rewrite step_config. apply step_bounds, H.
Qed.

(** C3. From the constructor's state, whose count is the capacity, every
    schedule of acquisitions, timer ticks, snapshots and destruction, at
    any clock values, keeps the count within [0, capacity] at every
    state observed, the first included. *)
Theorem token_count_within_capacity
    (rpm burst : Z) (qTimeout : option Z) (t0 : Z) (ops : list op) :
  0 <= burst ->
  let s0 := constructor rpm burst qTimeout t0 in
  tokens s0 = burst /\
  Forall (fun s => 0 <= tokens s <= burst) (s0 :: run s0 ops).
Proof.
  intros Hb s0. split; [reflexivity|].
  constructor.
  - simpl. lia.
  - apply (run_bounds ops s0). simpl. lia.
Qed.

Lemma token_count_within_capacity_witness :
  Forall (fun s => 0 <= tokens s <= 2)
         (run (constructor 60 2 None 0)
              [Acquire 0; Acquire 10; Acquire 20; Tick 1000; Tick 90000]).
Proof.
  pose proof (token_count_within_capacity 60 2 None 0
                [Acquire 0; Acquire 10; Acquire 20; Tick 1000; Tick 90000]
                ltac:(lia)) as [_ H].
  inversion H; assumption.
Defined.

(** *** The wait queue *)

Lemma processQueue_idle (s : t) :
  queue s = [] -> queue (processQueue s) = [] /\ settled (processQueue s) = settled s.
Proof.
  intros Hq. unfold processQueue. rewrite Hq. simpl.
  split; [reflexivity | apply app_nil_r].
Qed.

Lemma refillTokens_idle (now : Z) (s : t) : idle s -> idle (refillTokens now s).
Proof.
  intros [Hq Hs]. unfold refillTokens.
  destruct (Qle_bool 1 (tokensToAdd s now)); [|split; assumption].
  match goal with |- idle (processQueue ?s1) =>
    destruct (processQueue_idle s1 Hq) as [Hq' Hs'] end.
  split; [exact Hq' | rewrite Hs'; exact Hs].
Qed.

Lemma step_idle (s : t) (o : op) : idle s -> idle (step s o).
Proof.
  intros H. destruct o; simpl; try exact H.
  - pose proof (refillTokens_idle now s H) as [Hq Hs].
    unfold acquireToken.
    destruct (0 <? tokens (refillTokens now s)); simpl; split; assumption.
  - destruct (refillInterval s); [apply refillTokens_idle, H | exact H].
  - destruct H as [Hq Hs]. unfold destroy, idle; simpl.
    rewrite Hq, Hs. split; reflexivity.
Qed.

Lemma run_idle (ops : list op) :
  forall s, idle s -> Forall idle (run s ops).
Proof.
  induction ops as [|o ops IH]; intros s H; simpl; constructor.
  - apply step_idle, H.
  - apply IH, step_idle, H.
Qed.

(** C10. In every state reachable from the constructor by acquisitions,
    timer ticks, snapshots and destruction, the wait queue is empty:
    [getQueueSize] and [getStats] report 0, no waiter has ever been
    resolved, and neither [processQueue] nor [destroy] resolves one. *)
Theorem wait_queue_always_empty
    (rpm burst : Z) (qTimeout : option Z) (t0 : Z) (ops : list op) :
  let s0 := constructor rpm burst qTimeout t0 in
  Forall (fun s =>
            queue s = []
            /\ getQueueSize s = 0%nat
            /\ queueSize (getStats s) = 0%nat
            /\ settled s = []
            /\ settled (processQueue s) = settled s
            /\ settled (destroy s) = settled s)
         (s0 :: run s0 ops).
Proof.
  intros s0.
  assert (Hall : Forall idle (s0 :: run s0 ops)).
  { constructor; [split; reflexivity | apply run_idle; split; reflexivity]. }
  eapply Forall_impl; [exact Hall|].
  intros s [Hq Hs]. unfold getQueueSize, getStats; cbn [queueSize].
  repeat split; try assumption.
  - rewrite Hq. reflexivity.
  - rewrite Hq. reflexivity.
  - apply (processQueue_idle s Hq).
  - unfold destroy; cbn [settled]. rewrite Hq. apply app_nil_r.
Qed.

(** *** Acquiring with no time elapsing *)

Lemma refill_same_instant (now : Z) (s : t) :
  lastRefillTime s = now -> refillTokens now s = s.
Proof.
  intros H. unfold refillTokens, tokensToAdd. rewrite H, Z.sub_diag.
  reflexivity.
Qed.

(** [acquireToken] has no [throw]: it is a total function whose result is
    a grant, or a denial carried as a value. *)
Lemma acquireToken_returns (now : Z) (s : t) :
  exists r s', acquireToken now s = (r, s')
    /\ (allowed r = true /\ retryAfter r = None /\ error r = None
        \/ allowed r = false /\ remaining r = 0
           /\ retryAfter r = Some (calculateRetryAfter (refillTokens now s))
           /\ error r = Some "RATE_LIMITED"%string).
Proof.
  unfold acquireToken.
  destruct (0 <? tokens (refillTokens now s)); eexists; eexists;
    (split; [reflexivity|]); simpl; [left | right]; repeat split.
Qed.

(** C8. With capacity 5 and 60 requests per minute, five acquisitions at
    the instant of construction are all granted and the sixth is denied
    with [retryAfter = 1000 = ceil(60000 / 60)]; a denial is an ordinary
    result of the (total, never throwing) function. *)
Theorem burst_then_throttle (t0 : Z) :
  let s0 := constructor 60 5 None t0 in
  let '(firstFive, s5) := acquireMany 5 t0 s0 in
  let '(sixth, s6) := acquireToken t0 s5 in
  map allowed firstFive = [true; true; true; true; true]
  /\ map remaining firstFive = [4; 3; 2; 1; 0]
  /\ allowed sixth = false
  /\ retryAfter sixth = Some (JNum 1000)
  /\ Qceiling (60000 / inject_Z 60) = 1000
  /\ error sixth = Some "RATE_LIMITED"%string
  /\ tokens s6 = 0
  /\ forall now s, exists r s', acquireToken now s = (r, s').
Proof.
  intros s0. subst s0.
  cbv -[refillTokens].
  repeat (rewrite refill_same_instant by reflexivity; cbv -[refillTokens]).
  repeat (split; [reflexivity|]).
  intros now s. destruct (acquireToken_returns now s) as (r & s' & H & _).
  exists r, s'. exact H.
Qed.

(** *** Refill *)

(** With no waiter queued, a refill step never lowers the count. *)
Lemma refill_non_decreasing (now : Z) (s : t) :
  queue s = [] -> tokens s <= burstLimit (config s) ->
  tokens s <= tokens (refillTokens now s).
Proof.
  intros Hq Hhi. unfold refillTokens.
  destruct (Qle_bool 1 (tokensToAdd s now)) eqn:Hadd; [|lia].
  apply floor_of_at_least_one in Hadd.
  unfold processQueue; cbn [queue tokens]. rewrite Hq.
  cbn [processQueue_loop tokens]. lia.
Qed.

Lemma refill_non_decreasing_witness :
  tokens drained <= tokens (refillTokens 5000 drained).
Proof.
  apply refill_non_decreasing; [reflexivity | vm_compute; discriminate].
Defined.

(** C6, evaluated. From 0 tokens, sixty one-second ticks spanning
    60000 * 100 / 100 = 60000 ms leave the count at 60, not at the
    capacity 100: each tick adds [floor(1000 / 60000 * 100) = 1] and
    restarts the clock, dropping two thirds of a token; capacity is
    reached only after 100 ticks. *)
Theorem refill_drops_fractions :
  tokens drained = 0
  /\ 60000 * burstLimit (config drained) / requestsPerMinute (config drained) = 60000
  /\ last (everySecond 60) = Some 60000
  /\ tokens (ticks drained (everySecond 60)) = 60
  /\ tokens (ticks drained (everySecond 99)) = 99
  /\ tokens (ticks drained (everySecond 100)) = 100.
Proof. vm_compute. repeat split. Qed.

(** *** Throughput *)

(** What a refill adds is at most the share of the elapsed time. *)
Lemma tokensToAdd_floor (s : t) (now : Z) :
  60000 * Qfloor (tokensToAdd s now)
  <= (now - lastRefillTime s) * requestsPerMinute (config s).
Proof.
  pose proof (Qfloor_le (tokensToAdd s now)) as H.
  set (f := Qfloor (tokensToAdd s now)) in *. clearbody f.
  cbv beta iota zeta delta
    [tokensToAdd Qle Qmult Qdiv Qinv inject_Z Qnum Qden] in H.
  lia.
Qed.

Lemma tokensToAdd_fires (s : t) (now : Z) :
  Qle_bool 1 (tokensToAdd s now) = true <->
  60000 <= (now - lastRefillTime s) * requestsPerMinute (config s).
Proof.
  rewrite Qle_bool_iff.
  cbv beta iota zeta delta [tokensToAdd Qle Qmult Qdiv Qinv inject_Z Qnum Qden].
  lia.
Qed.

(** A refill of an idle limiter: the state is idle again, the count does
    not go down, and it goes up by no more than the elapsed share. *)
Lemma refillTokens_credit (now : Z) (s : t) :
  idle s -> 0 <= tokens s -> 0 <= requestsPerMinute (config s) ->
  0 <= burstLimit (config s) ->
  let s' := refillTokens now s in
  idle s' /\ config s' = config s
  /\ 0 <= tokens s'
  /\ 60000 * tokens s' + (now - lastRefillTime s') * requestsPerMinute (config s)
     <= 60000 * tokens s + (now - lastRefillTime s) * requestsPerMinute (config s)
  /\ (lastRefillTime s' = lastRefillTime s \/ lastRefillTime s' = now).
Proof.
  intros Hidle Htok Hrpm Hcap s'. subst s'.
  split; [apply refillTokens_idle, Hidle|].
  split; [apply refillTokens_config|].
  pose proof (tokensToAdd_floor s now) as Hfloor.
  destruct Hidle as [Hq _]. unfold refillTokens.
  destruct (Qle_bool 1 (tokensToAdd s now)) eqn:Hadd.
  - apply floor_of_at_least_one in Hadd.
    unfold processQueue; cbn [queue tokens lastRefillTime config]. rewrite Hq.
    cbn [processQueue_loop tokens lastRefillTime].
    split; [lia|]. split; [lia | right; reflexivity].
  - split; [lia|]. split; [lia | left; reflexivity].
Qed.

Lemma grants_bound (T : Z) (ops : list op) :
  forall s,
    idle s -> 0 <= tokens s -> 0 <= requestsPerMinute (config s) ->
  0 <= burstLimit (config s) ->
    lastRefillTime s <= T ->
    notAfter T ops = true ->
    60000 * Z.of_nat (grants s ops)
    <= 60000 * tokens s + (T - lastRefillTime s) * requestsPerMinute (config s).
Proof.
  induction ops as [|o ops IH]; intros s Hidle Htok Hrpm Hcap Hlast Hclock.
  - cbn [grants]. nia.
  - cbn [notAfter forallb] in Hclock. apply andb_true_iff in Hclock as [Ho Hops].
    cbn [grants]. destruct o as [now|now| | |]; cbn [clockOf] in Ho;
      try apply Z.leb_le in Ho.
    + destruct (refillTokens_credit now s Hidle Htok Hrpm Hcap)
        as (Hidle1 & Hcfg1 & Htok1 & Hcredit & Hlast1).
      cbn [step]. unfold acquireToken.
      destruct (0 <? tokens (refillTokens now s)) eqn:Hpos; cbn [fst snd allowed].
      * apply Z.ltb_lt in Hpos.
        match goal with |- context [grants ?s2 ops] =>
          specialize (IH s2); set (g := grants s2 ops) in * end.
        cbn [tokens lastRefillTime config] in IH. rewrite Hcfg1 in IH.
        specialize (IH ltac:(destruct Hidle1; split; assumption)
                       ltac:(lia) Hrpm Hcap ltac:(destruct Hlast1; lia) Hops).
        nia.
      * specialize (IH (refillTokens now s) Hidle1 Htok1).
        rewrite Hcfg1 in IH.
        specialize (IH Hrpm Hcap ltac:(destruct Hlast1; lia) Hops). nia.
    + cbn [step]. destruct (refillInterval s).
      * destruct (refillTokens_credit now s Hidle Htok Hrpm Hcap)
          as (Hidle1 & Hcfg1 & Htok1 & Hcredit & Hlast1).
        specialize (IH (refillTokens now s) Hidle1 Htok1).
        rewrite Hcfg1 in IH.
        specialize (IH Hrpm Hcap ltac:(destruct Hlast1; lia) Hops). nia.
      * specialize (IH s Hidle Htok Hrpm Hcap Hlast Hops). lia.
    + exact (IH s Hidle Htok Hrpm Hcap Hlast Hops).
    + exact (IH s Hidle Htok Hrpm Hcap Hlast Hops).
    + cbn [step].
      specialize (IH (destroy s) (step_idle s Destroy Hidle) Htok Hrpm Hcap Hlast Hops).
      exact IH.
Qed.

(** The limiter never grants more than the quota: over any schedule of
    acquisitions, ticks, snapshots and destruction whose clock values lie
    between the construction time [t0] and [T], the number of granted
    acquisitions is at most the capacity plus the share of the elapsed
    time, [burst + (T - t0) * requestsPerMinute / 60000]. *)
Theorem grants_within_quota
    (rpm burst : Z) (qTimeout : option Z) (t0 T : Z) (ops : list op) :
  0 <= rpm -> 0 <= burst -> t0 <= T ->
  notAfter T ops = true ->
  60000 * Z.of_nat (grants (constructor rpm burst qTimeout t0) ops)
  <= 60000 * burst + (T - t0) * rpm.
Proof.
  intros Hrpm Hburst Ht Hclock.
  apply (grants_bound T ops (constructor rpm burst qTimeout t0));
    [split; reflexivity | exact Hburst | exact Hrpm | exact Hburst | exact Ht
     | exact Hclock].
Qed.

Lemma grants_within_quota_witness :
  60000 * Z.of_nat (grants (constructor 60 2 None 0)
                           [Acquire 0; Acquire 1; Acquire 2; Tick 1000;
                            Acquire 1500; Acquire 1600; Acquire 3000])
  <= 60000 * 2 + (3000 - 0) * 60.
Proof.
  apply (grants_within_quota 60 2 None 0 3000); [lia | lia | lia | reflexivity].
Defined.

(** *** Waiting out a denial *)

Lemma refillTokens_not_fired (now : Z) (s : t) :
  Qle_bool 1 (tokensToAdd s now) = false -> refillTokens now s = s.
Proof. intros H. unfold refillTokens. rewrite H. reflexivity. Qed.

Lemma refillTokens_fired (now : Z) (s : t) :
  idle s -> Qle_bool 1 (tokensToAdd s now) = true ->
  tokens (refillTokens now s)
  = Z.min (burstLimit (config s)) (tokens s + Qfloor (tokensToAdd s now))
  /\ lastRefillTime (refillTokens now s) = now.
Proof.
  intros [Hq _] H. unfold refillTokens, processQueue. rewrite H.
  cbn [queue tokens lastRefillTime]. rewrite Hq. split; reflexivity.
Qed.

Lemma retry_after_covers_one_token (rpm : Z) :
  0 < rpm -> 60000 <= Qceiling (1 * (60000 / inject_Z rpm)) * rpm.
Proof.
  intros H. pose proof (Qle_ceiling (1 * (60000 / inject_Z rpm))) as Hc.
  set (c := Qceiling (1 * (60000 / inject_Z rpm))) in *. clearbody c.
  destruct rpm as [|p|p]; try lia.
  cbv beta iota zeta delta [Qle Qmult Qdiv Qinv inject_Z Qnum Qden] in Hc.
  lia.
Qed.

Lemma tick_waitedFrom (cfg : RateLimiterConfig) (now tick : Z) (s : t) :
  1 <= burstLimit cfg ->
  waitedFrom cfg now s -> waitedFrom cfg now (step s (Tick tick)).
Proof.
  intros Hcap (Hidle & Hcfg & Htok & Hor). cbn [step].
  destruct (refillInterval s);
    [|exact (conj Hidle (conj Hcfg (conj Htok Hor)))].
  destruct (Qle_bool 1 (tokensToAdd s tick)) eqn:Hadd.
  - destruct (refillTokens_fired tick s Hidle Hadd) as [Ht _].
    apply floor_of_at_least_one in Hadd.
    split; [apply refillTokens_idle, Hidle|].
    split; [rewrite refillTokens_config; exact Hcfg|].
    rewrite Ht, Hcfg. split; [lia | left; lia].
  - rewrite (refillTokens_not_fired tick s Hadd).
    exact (conj Hidle (conj Hcfg (conj Htok Hor))).
Qed.

Lemma ticks_waitedFrom (cfg : RateLimiterConfig) (now : Z) (clock : list Z) :
  1 <= burstLimit cfg ->
  forall s, waitedFrom cfg now s -> waitedFrom cfg now (ticks s clock).
Proof.
  intros Hcap. induction clock as [|tick clock IH]; intros s H; [exact H|].
  unfold ticks in *. cbn [fold_left]. apply IH, tick_waitedFrom; assumption.
Qed.

(** A denied caller that comes back no earlier than [retryAfter] later is
    granted, provided nobody else acquired in between: the timer may have
    ticked any number of times. *)
Theorem retry_after_is_enough
    (s : t) (now later d : Z) (clock : list Z) :
  idle s ->
  0 <= tokens s ->
  0 < requestsPerMinute (config s) ->
  1 <= burstLimit (config s) ->
  lastRefillTime s <= now ->
  allowed (fst (acquireToken now s)) = false ->
  retryAfter (fst (acquireToken now s)) = Some (JNum d) ->
  now + d <= later ->
  allowed (fst (acquireToken later (ticks (snd (acquireToken now s)) clock)))
  = true.
Proof.
  intros Hidle Htok Hrpm Hcap Hlast Hden Hra Hlater.
  assert (Hcap0 : 0 <= burstLimit (config s)) by lia.
  destruct (refillTokens_credit now s Hidle Htok ltac:(lia) Hcap0)
    as (Hidle1 & Hcfg1 & Htok1 & _ & Hlast1).
  assert (Hacq : (0 <? tokens (refillTokens now s)) = false
                 /\ snd (acquireToken now s) = refillTokens now s
                 /\ retryAfter (fst (acquireToken now s))
                    = Some (calculateRetryAfter (refillTokens now s))).
  { revert Hden. unfold acquireToken.
    destruct (0 <? tokens (refillTokens now s)); cbn [fst snd allowed retryAfter];
      [discriminate | repeat split]. }
  destruct Hacq as (Hpos & Hsnd & Hra'). rewrite Hra' in Hra. rewrite Hsnd.
  clear Hden Hra' Hsnd.
  unfold calculateRetryAfter in Hra. rewrite Hpos, Hcfg1 in Hra.
  apply Z.ltb_ge in Hpos.
  replace (requestsPerMinute (config s) =? 0) with false in Hra
    by (symmetry; apply Z.eqb_neq; lia).
  injection Hra as Hd.
  pose proof (retry_after_covers_one_token _ Hrpm) as Hcover. rewrite Hd in Hcover.
  assert (Hw : waitedFrom (config s) now (refillTokens now s)).
  { split; [exact Hidle1|]. split; [exact Hcfg1|]. split; [exact Htok1|].
    right. destruct Hlast1; lia. }
  apply (ticks_waitedFrom (config s) now clock Hcap) in Hw.
  destruct Hw as (Hidle2 & Hcfg2 & Htok2 & Hor).
  set (s2 := ticks (refillTokens now s) clock) in *.
  unfold acquireToken.
  assert (Hgot : 0 < tokens (refillTokens later s2)).
  { destruct (Qle_bool 1 (tokensToAdd s2 later)) eqn:Hadd.
    - destruct (refillTokens_fired later s2 Hidle2 Hadd) as [Ht _].
      apply floor_of_at_least_one in Hadd. rewrite Ht, Hcfg2. lia.
    - rewrite (refillTokens_not_fired later s2 Hadd).
      destruct Hor as [Hone|Hold]; [lia|].
      exfalso. apply Bool.not_true_iff_false in Hadd. apply Hadd.
      apply tokensToAdd_fires. rewrite Hcfg2. nia. }
  apply Z.ltb_lt in Hgot. rewrite Hgot. reflexivity.
Qed.

Lemma retry_after_is_enough_witness :
  allowed (fst (acquireToken 1400
                  (ticks (snd (acquireToken 400 drained)) [1000; 1100])))
  = true.
Proof.
  apply (retry_after_is_enough drained 400 1400 600 [1000; 1100]);
    first [reflexivity | split; reflexivity | vm_compute; congruence].
Defined.

End RateLimiterSpec.

(** ** The HTTP executor *)

Module ObsidianHttpClientSpec.

Import ObsidianHttpClient.

Section Loop.

Variable transport : nat -> TransportOutcome.
Variable maxRetries : Z.

(** One iteration on a 5xx response with retries left: sleep, go on. *)
Lemma requestFrom_5xx_retry (fuel attempt : nat) (lastError : thrown)
    (r : RequestUrlResponse) :
  transport attempt = Response r ->
  500 <= status r ->
  Z.of_nat attempt < maxRetries ->
  requestFrom transport maxRetries (S fuel) attempt lastError =
    (fst (requestFrom transport maxRetries fuel (S attempt) lastError),
     EvTransport attempt :: EvSleep (calculateRetryDelay attempt)
       :: snd (requestFrom transport maxRetries fuel (S attempt) lastError)).
Proof.
  intros Ht Hst Hlt. cbn [requestFrom]. rewrite Ht.
  replace (Z.of_nat attempt <=? maxRetries) with true
    by (symmetry; apply Z.leb_le; lia).
  replace (status r <? 300) with false by (symmetry; apply Z.ltb_ge; lia).
  replace (status r <? 500) with false by (symmetry; apply Z.ltb_ge; lia).
  replace (Z.of_nat attempt <? maxRetries) with true
    by (symmetry; apply Z.ltb_lt; lia).
  replace (500 <=? status r) with true by (symmetry; apply Z.leb_le; lia).
  rewrite !andb_false_r. cbn [andb].
  destruct (requestFrom transport maxRetries fuel (S attempt) lastError).
  reflexivity.
Qed.

(** The last iteration on a 5xx response: the error built from it is
    thrown. *)
Lemma requestFrom_5xx_last (fuel attempt : nat) (lastError : thrown)
    (r : RequestUrlResponse) :
  transport attempt = Response r ->
  500 <= status r ->
  Z.of_nat attempt = maxRetries ->
  requestFrom transport maxRetries (S fuel) attempt lastError =
    (Throw (ServiceError (handleErrorResponse r)), [EvTransport attempt]).
Proof.
  intros Ht Hst Heq. cbn [requestFrom]. rewrite Ht.
  replace (Z.of_nat attempt <=? maxRetries) with true
    by (symmetry; apply Z.leb_le; lia).
  replace (status r <? 300) with false by (symmetry; apply Z.ltb_ge; lia).
  replace (status r <? 500) with false by (symmetry; apply Z.ltb_ge; lia).
  replace (Z.of_nat attempt <? maxRetries) with false
    by (symmetry; apply Z.ltb_ge; lia).
  rewrite !andb_false_r. cbn [andb]. unfold catchClause.
  replace (maxRetries <=? Z.of_nat attempt) with true
    by (symmetry; apply Z.leb_le; lia).
  reflexivity.
Qed.

(** One iteration on a 4xx response: the error is thrown inside the
    [try] block and so enters the [catch] clause. *)
Lemma requestFrom_4xx (fuel attempt : nat) (lastError : thrown)
    (r : RequestUrlResponse) :
  transport attempt = Response r ->
  400 <= status r < 500 ->
  Z.of_nat attempt <= maxRetries ->
  requestFrom transport maxRetries (S fuel) attempt lastError =
    (fst (catchClause maxRetries attempt (ServiceError (handleErrorResponse r))
            (requestFrom transport maxRetries fuel (S attempt))),
     EvTransport attempt
       :: snd (catchClause maxRetries attempt
                 (ServiceError (handleErrorResponse r))
                 (requestFrom transport maxRetries fuel (S attempt)))).
Proof.
  intros Ht Hst Hle. cbn [requestFrom]. rewrite Ht.
  replace (Z.of_nat attempt <=? maxRetries) with true
    by (symmetry; apply Z.leb_le; lia).
  replace (status r <? 300) with false by (symmetry; apply Z.ltb_ge; lia).
  replace (400 <=? status r) with true by (symmetry; apply Z.leb_le; lia).
  replace (status r <? 500) with true by (symmetry; apply Z.ltb_lt; lia).
  rewrite andb_false_r. cbn [andb].
  destruct (catchClause maxRetries attempt _ _). reflexivity.
Qed.

(** A transport that answers every call with a 5xx status is called
    until the loop ends. *)
Lemma requestFrom_all_5xx (fuel : nat) :
  (forall k, exists r, transport k = Response r /\ 500 <= status r) ->
  forall attempt lastError,
    Z.of_nat attempt + Z.of_nat fuel = maxRetries ->
    exists r,
      transport (Z.to_nat maxRetries) = Response r
      /\ fst (requestFrom transport maxRetries (S fuel) attempt lastError)
         = Throw (ServiceError (handleErrorResponse r))
      /\ transportCalls
           (snd (requestFrom transport maxRetries (S fuel) attempt lastError))
         = S fuel.
Proof.
  intros Hall. induction fuel as [|fuel IH]; intros attempt lastError Hsum.
  - destruct (Hall attempt) as (r & Ht & Hst).
    exists r. rewrite (requestFrom_5xx_last 0 attempt lastError r Ht Hst)
      by lia.
    replace (Z.to_nat maxRetries) with attempt by lia.
    split; [exact Ht|]. split; reflexivity.
  - destruct (Hall attempt) as (r & Ht & Hst).
    destruct (IH (S attempt) lastError ltac:(lia)) as (rl & Hl & Hres & Hn).
    exists rl.
    rewrite (requestFrom_5xx_retry (S fuel) attempt lastError r Ht Hst)
      by lia.
    cbn [fst snd]. split; [exact Hl|]. split; [exact Hres|].
    unfold transportCalls in *. cbn [List.filter isTransport length].
    rewrite Hn. reflexivity.
Qed.

(** Whatever runs the loop out of fuel also runs it out of attempts:
    the fuel [request] gives is enough. *)
Lemma requestFrom_fuel_enough (fuel : nat) :
  forall extra attempt lastError,
    maxRetries + 1 <= Z.of_nat attempt + Z.of_nat fuel ->
    requestFrom transport maxRetries (fuel + extra) attempt lastError
    = requestFrom transport maxRetries fuel attempt lastError.
Proof.
  induction fuel as [|fuel IH]; intros extra attempt lastError Hsum.
  - destruct extra as [|extra]; [reflexivity|].
    cbn [Nat.add requestFrom].
    replace (Z.of_nat attempt <=? maxRetries) with false
      by (symmetry; apply Z.leb_gt; lia).
    reflexivity.
  - cbn [Nat.add requestFrom].
    assert (Hk : forall e,
               requestFrom transport maxRetries (fuel + extra) (S attempt) e
               = requestFrom transport maxRetries fuel (S attempt) e).
    { intros e. apply IH. lia. }
    destruct (Z.of_nat attempt <=? maxRetries); [|reflexivity].
    unfold catchClause.
    repeat match goal with
           | |- context [match ?x with _ => _ end] =>
               lazymatch x with
               | context [requestFrom] => fail
               | _ => destruct x eqn:?
               end
           end;
      rewrite ?Hk; reflexivity.
Qed.

End Loop.

Lemma handleErrorResponse_5xx (r : RequestUrlResponse) :
  500 <= status r ->
  handleErrorResponse r =
    JIRA_API_ERROR (status r) (Js.toString (status r))
      (match handleErrorResponse r with
       | JIRA_API_ERROR _ _ m _ => m
       | _ => ""%string
       end)
      (match handleErrorResponse r with
       | JIRA_API_ERROR _ _ _ ems => ems
       | _ => None
       end).
Proof.
  intros H. unfold handleErrorResponse.
  replace (status r =? 401) with false by (symmetry; apply Z.eqb_neq; lia).
  replace (status r =? 403) with false by (symmetry; apply Z.eqb_neq; lia).
  replace (status r =? 429) with false by (symmetry; apply Z.eqb_neq; lia).
  reflexivity.
Qed.

(** With [maxRetries = 3], a transport that answers every call with
    status 503 is called exactly four times, with sleeps of 1, 2 and 4
    seconds in between, and the caller then receives the JIRA_API_ERROR
    built from the fourth response, carrying status 503. *)
Lemma obsidian_exhausted_retries_503 (transport : nat -> TransportOutcome) :
  (forall k, exists r, transport k = Response r /\ status r = 503) ->
  exists (r3 : RequestUrlResponse) (message : string)
         (errorMessages : option (list string)),
    transport 3%nat = Response r3
    /\ handleErrorResponse r3 = JIRA_API_ERROR 503 "503" message errorMessages
    /\ request transport 3 =
         (Throw (ServiceError (JIRA_API_ERROR 503 "503" message errorMessages)),
          [EvTransport 0; EvSleep 1000; EvTransport 1; EvSleep 2000;
           EvTransport 2; EvSleep 4000; EvTransport 3])
    /\ transportCalls (snd (request transport 3)) = 4%nat.
Proof.
  intros Hall.
  destruct (Hall 0%nat) as (r0 & H0 & S0).
  destruct (Hall 1%nat) as (r1 & H1 & S1).
  destruct (Hall 2%nat) as (r2 & H2 & S2).
  destruct (Hall 3%nat) as (r3 & H3 & S3).
  pose proof (handleErrorResponse_5xx r3 ltac:(lia)) as He.
  rewrite S3 in He. change (Js.toString 503) with "503"%string in He.
  eexists r3, _, _. split; [exact H3|]. split; [exact He|].
  assert (Hreq : request transport 3 =
                 (Throw (ServiceError (handleErrorResponse r3)),
                  [EvTransport 0; EvSleep 1000; EvTransport 1; EvSleep 2000;
                   EvTransport 2; EvSleep 4000; EvTransport 3])).
  { unfold request. change (Z.to_nat (3 + 1)) with 4%nat.
    rewrite (requestFrom_5xx_retry transport 3 3 0 Undefined r0 H0) by (simpl; lia).
    rewrite (requestFrom_5xx_retry transport 3 2 1 Undefined r1 H1) by (simpl; lia).
    rewrite (requestFrom_5xx_retry transport 3 1 2 Undefined r2 H2) by (simpl; lia).
    rewrite (requestFrom_5xx_last transport 3 0 3 Undefined r3 H3) by (simpl; lia).
    reflexivity. }
  rewrite Hreq. split; [rewrite <- He; reflexivity | reflexivity].
Qed.

Lemma obsidian_exhausted_retries_503_witness :
  fst (request (always (plainResponse 503)) 3) =
    Throw (ServiceError (JIRA_API_ERROR 503 "503" "API error occurred" None))
  /\ transportCalls (snd (request (always (plainResponse 503)) 3)) = 4%nat.
Proof.
  destruct (obsidian_exhausted_retries_503 (always (plainResponse 503)))
    as (r3 & m & ems & H3 & He & Hreq & Hn).
  - intros k. exists (plainResponse 503). split; reflexivity.
  - split; [|exact Hn]. rewrite Hreq. cbn [fst].
    injection H3 as <-. vm_compute in He. injection He as <- <-. reflexivity.
Defined.

Lemma handleErrorResponse_429 (r : RequestUrlResponse) :
  status r = 429 ->
  handleErrorResponse r =
    RATE_LIMIT_ERROR "Rate limit exceeded"
      (Some (jsnum_mul (headerInt (headers r) "retry-after" "60") 1000))
      (Some (headerInt (headers r) "x-ratelimit-limit" "100"))
      (Some (headerInt (headers r) "x-ratelimit-remaining" "0")).
Proof. intros H. unfold handleErrorResponse. rewrite H. reflexivity. Qed.

(** A 429 response is thrown at the first attempt, whatever [maxRetries]:
    the error has no [status] field and a fixed message. *)
Lemma rate_limit_response_not_retried
    (transport : nat -> TransportOutcome) (maxRetries : Z)
    (r : RequestUrlResponse) :
  0 <= maxRetries ->
  transport 0%nat = Response r ->
  status r = 429 ->
  request transport maxRetries =
    (Throw (ServiceError (handleErrorResponse r)), [EvTransport 0]).
Proof.
  intros Hm Ht Hs. unfold request.
  replace (Z.to_nat (maxRetries + 1)) with (S (Z.to_nat maxRetries)) by lia.
  rewrite (requestFrom_4xx transport maxRetries _ 0 Undefined r Ht)
    by (simpl; lia).
  rewrite (handleErrorResponse_429 r Hs). unfold catchClause.
  destruct (maxRetries <=? Z.of_nat 0); reflexivity.
Qed.

Lemma rate_limit_response_not_retried_witness :
  request (always (withRetryAfter "120")) 3 =
    (Throw (ServiceError
              (RATE_LIMIT_ERROR "Rate limit exceeded" (Some (JNum 120000))
                                (Some (JNum 100)) (Some (JNum 0)))),
     [EvTransport 0]).
Proof.
  rewrite (rate_limit_response_not_retried
             (always (withRetryAfter "120")) 3 (withRetryAfter "120"));
    [reflexivity | lia | reflexivity | reflexivity].
Defined.

(** A 429 response whose Retry-After header is absent or empty carries
    [retryAfter = 60000]: the "60" after [||] is read in its place. *)
Lemma retry_after_default (r : RequestUrlResponse) :
  status r = 429 ->
  headers r !! "retry-after"%string = None
  \/ headers r !! "retry-after"%string = Some ""%string ->
  exists limit remaining,
    handleErrorResponse r
    = RATE_LIMIT_ERROR "Rate limit exceeded" (Some (JNum 60000)) limit remaining.
Proof.
  intros Hs Hh. rewrite (handleErrorResponse_429 r Hs).
  eexists _, _. f_equal. f_equal.
  destruct Hh as [H|H]; unfold headerInt; rewrite H; reflexivity.
Qed.

(** A 4xx error whose message mentions neither "network" nor "timeout" is
    thrown at the first attempt. *)
Lemma client_error_not_retried
    (transport : nat -> TransportOutcome) (maxRetries : Z)
    (r : RequestUrlResponse) :
  0 <= maxRetries ->
  transport 0%nat = Response r ->
  400 <= status r < 500 ->
  isRetryableError (ServiceError (handleErrorResponse r)) = false ->
  request transport maxRetries =
    (Throw (ServiceError (handleErrorResponse r)), [EvTransport 0]).
Proof.
  intros Hm Ht Hs Hr. unfold request.
  replace (Z.to_nat (maxRetries + 1)) with (S (Z.to_nat maxRetries)) by lia.
  rewrite (requestFrom_4xx transport maxRetries _ 0 Undefined r Ht)
    by (simpl; lia).
  unfold catchClause. rewrite Hr.
  destruct (maxRetries <=? Z.of_nat 0); reflexivity.
Qed.

(** Responses with a 5xx status throughout: [maxRetries + 1] calls, then
    the error of the last response. *)
Lemma server_errors_exhaust_retries
    (transport : nat -> TransportOutcome) (maxRetries : Z) :
  0 <= maxRetries ->
  (forall k, exists r, transport k = Response r /\ 500 <= status r) ->
  exists r,
    transport (Z.to_nat maxRetries) = Response r
    /\ fst (request transport maxRetries)
       = Throw (ServiceError (handleErrorResponse r))
    /\ transportCalls (snd (request transport maxRetries))
       = S (Z.to_nat maxRetries).
Proof.
  intros Hm Hall. unfold request.
  replace (Z.to_nat (maxRetries + 1)) with (S (Z.to_nat maxRetries)) by lia.
  apply requestFrom_all_5xx; [exact Hall | lia].
Qed.

Lemma server_errors_exhaust_retries_witness :
  transportCalls (snd (request (always (plainResponse 500)) 2)) = 3%nat.
Proof.
  destruct (server_errors_exhaust_retries (always (plainResponse 500)) 2)
    as (r & _ & _ & Hn); [lia | | exact Hn].
  intros k. exists (plainResponse 500). split; [reflexivity | cbn; lia].
Defined.

Lemma client_error_not_retried_witness :
  request (always (plainResponse 404)) 3 =
    (Throw (ServiceError (JIRA_API_ERROR 404 "404" "API error occurred" None)),
     [EvTransport 0]).
Proof.
  rewrite (client_error_not_retried (always (plainResponse 404)) 3
             (plainResponse 404));
    [reflexivity | lia | reflexivity | cbn; lia | reflexivity].
Defined.

Lemma retry_after_default_witness :
  exists limit remaining,
    handleErrorResponse (plainResponse 429)
    = RATE_LIMIT_ERROR "Rate limit exceeded" (Some (JNum 60000)) limit remaining.
Proof.
  apply (retry_after_default (plainResponse 429)); [reflexivity|].
  left. reflexivity.
Defined.

(** C5, evaluated. A 401 response whose body reads "Session timeout" is
    not raised at the first attempt: the [throw] of the 4xx branch sits
    inside the [try], its [catch] finds "timeout" in the message, and the
    request is sent four times before the AUTHENTICATION_ERROR comes
    out. The statuses 500 and 429 behave as classified. *)
Theorem auth_error_retried_on_timeout_text :
  handleErrorResponse sessionTimeout401
    = AUTHENTICATION_ERROR "Session timeout" 401
  /\ isRetryableError (ServiceError (handleErrorResponse sessionTimeout401)) = true
  /\ request (always sessionTimeout401) 3 =
       (Throw (ServiceError (AUTHENTICATION_ERROR "Session timeout" 401)),
        [EvTransport 0; EvSleep 1000; EvTransport 1; EvSleep 2000;
         EvTransport 2; EvSleep 4000; EvTransport 3])
  /\ request (always (plainResponse 401)) 3 =
       (Throw (ServiceError (AUTHENTICATION_ERROR "Authentication failed" 401)),
        [EvTransport 0])
  /\ transportCalls (snd (request (always (plainResponse 500)) 3)) = 4%nat
  /\ transportCalls (snd (request (always (plainResponse 429)) 3)) = 1%nat.
Proof. vm_compute. repeat split. Qed.

(** C7, evaluated. A 429 response is thrown at the first attempt with
    [retryAfter] read from the header: "120" gives 120000 and no header
    gives 60000, but a header that does not start with a number (here the
    HTTP-date form of Retry-After) gives NaN, not 60000.  The axios-based
    client reads the header with the same expression and, on such a
    header, builds no error at all: at any clock value the [resetTime]
    field throws a RangeError in its place. *)
Theorem invalid_retry_after_is_not_defaulted :
  request (always dated429) 3 =
    (Throw (ServiceError
              (RATE_LIMIT_ERROR "Rate limit exceeded" (Some JNaN)
                                (Some (JNum 100)) (Some (JNum 0)))),
     [EvTransport 0])
  /\ request (always (withRetryAfter "120")) 3 =
       (Throw (ServiceError
                 (RATE_LIMIT_ERROR "Rate limit exceeded" (Some (JNum 120000))
                                   (Some (JNum 100)) (Some (JNum 0)))),
        [EvTransport 0])
  /\ request (always (plainResponse 429)) 3 =
       (Throw (ServiceError
                 (RATE_LIMIT_ERROR "Rate limit exceeded" (Some (JNum 60000))
                                   (Some (JNum 100)) (Some (JNum 0)))),
        [EvTransport 0])
  /\ Js.parseInt "soon" = JNaN
  /\ (forall now : Z,
        HttpClient.createRateLimitErrorFromResponse now (headers dated429)
        = Throw (JsError "Invalid time value" None))
  /\ HttpClient.createRateLimitErrorFromResponse
       1700000000000 (headers (withRetryAfter "120"))
     = Return (RATE_LIMIT_ERROR "Rate limit exceeded" (Some (JNum 120000))
                                (Some (JNum 100)) (Some (JNum 0)))
  /\ HttpClient.createRateLimitErrorFromResponse
       1700000000000 (headers (plainResponse 429))
     = Return (RATE_LIMIT_ERROR "Rate limit exceeded" (Some (JNum 60000))
                                (Some (JNum 100)) (Some (JNum 0))).
Proof.
  split; [vm_compute; reflexivity|].
  split; [vm_compute; reflexivity|].
  split; [vm_compute; reflexivity|].
  split; [vm_compute; reflexivity|].
  split; [intros now; reflexivity|].
  split; vm_compute; reflexivity.
Qed.

(** *** The loop as a whole *)

Ltac bool_facts :=
  repeat match goal with
         | H : (_ && _) = true |- _ => apply andb_true_iff in H as [? ?]
         | H : (_ <=? _) = true |- _ => apply Z.leb_le in H
         | H : (_ <=? _) = false |- _ => apply Z.leb_gt in H
         | H : (_ <? _) = true |- _ => apply Z.ltb_lt in H
         | H : (_ <? _) = false |- _ => apply Z.ltb_ge in H
         end.


(** The backoff doubles from one second and stops at thirty. *)
Theorem retry_delay_doubles_then_caps (attempt : nat) :
  calculateRetryDelay attempt
  = (if (attempt <=? 4)%nat then 1000 * 2 ^ Z.of_nat attempt else 30000)
  /\ 1000 <= calculateRetryDelay attempt <= 30000
  /\ calculateRetryDelay attempt <= calculateRetryDelay (S attempt).
Proof.
  unfold calculateRetryDelay.
  assert (Hpos : forall n : nat, 1 <= 2 ^ Z.of_nat n)
    by (intros n; apply (Z.pow_le_mono_r 2 0 (Z.of_nat n)); lia).
  assert (Hmono : 2 ^ Z.of_nat attempt <= 2 ^ Z.of_nat (S attempt))
    by (apply Z.pow_le_mono_r; lia).
  pose proof (Hpos attempt) as H1. pose proof (Hpos (S attempt)) as H2.
  split; [|split; lia].
  destruct (Nat.leb_spec attempt 4) as [Hle|Hgt].
  - assert (H32 : 2 ^ Z.of_nat attempt <= 2 ^ 4)
      by (apply Z.pow_le_mono_r; lia).
    change (2 ^ 4) with 16 in H32. lia.
  - assert (H32 : 2 ^ 5 <= 2 ^ Z.of_nat attempt)
      by (apply Z.pow_le_mono_r; lia).
    change (2 ^ 5) with 32 in H32. lia.
Qed.

Section Whole.

Variable transport : nat -> TransportOutcome.
Variable maxRetries : Z.



End Whole.



(** A negative [maxRetries] (from [options.retries] or the configuration)
    skips the loop: no request is sent and the unassigned [lastError],
    [undefined], is thrown. *)
Theorem negative_retries_send_nothing
    (transport : nat -> TransportOutcome) (maxRetries : Z) :
  maxRetries < 0 ->
  request transport maxRetries = (Throw Undefined, []).
Proof.
  intros H. unfold request.
  replace (Z.to_nat (maxRetries + 1)) with 0%nat by lia. reflexivity.
Qed.

Lemma negative_retries_send_nothing_witness :
  request (always (plainResponse 200)) (-1) = (Throw Undefined, []).
Proof. apply negative_retries_send_nothing. lia. Defined.







(** *** A numeric Retry-After *)

Lemma horner_of_uint_acc (u : Decimal.uint) :
  forall p, Z.pos (Pos.of_uint_acc u p) = Js.horner u (Z.pos p).
Proof.
  induction u; intros p; cbn [Pos.of_uint_acc Js.horner]; [reflexivity|..];
    rewrite IHu; f_equal; lia.
Qed.

Lemma horner_of_uint (u : Decimal.uint) : Z.of_N (Pos.of_uint u) = Js.horner u 0.
Proof.
  induction u; cbn [Pos.of_uint Js.horner]; [reflexivity | exact IHu |..];
    cbn [Z.of_N]; rewrite horner_of_uint_acc; reflexivity.
Qed.

Lemma parseDigits_numeral (u : Decimal.uint) :
  forall a,
    Js.parseDigits 10 (NilEmpty.string_of_uint u) (Some a) = Some (Js.horner u a).
Proof.
  induction u; intros a; cbn [NilEmpty.string_of_uint Js.horner]; [reflexivity|..];
    (etransitivity; [|apply IHu]); reflexivity.
Qed.

(** Evaluate the tests [parseInt] makes on the characters it has in hand. *)
Ltac eval_chars :=
  repeat first
    [ match goal with
      | |- context [Js.isStrWhiteSpace (Ascii ?a ?b ?c ?d ?e ?f ?g ?h)] =>
          let v := eval vm_compute in (Js.isStrWhiteSpace (Ascii a b c d e f g h)) in
          change (Js.isStrWhiteSpace (Ascii a b c d e f g h)) with v
      | |- context [Js.digitValue (Ascii ?a ?b ?c ?d ?e ?f ?g ?h)] =>
          let v := eval vm_compute in (Js.digitValue (Ascii a b c d e f g h)) in
          change (Js.digitValue (Ascii a b c d e f g h)) with v
      | |- context [Z.ltb (Zpos ?x) (Zpos ?y)] =>
          let v := eval vm_compute in (Z.ltb (Zpos x) (Zpos y)) in
          change (Z.ltb (Zpos x) (Zpos y)) with v
      | |- context [Z.ltb Z0 (Zpos ?y)] =>
          change (Z.ltb Z0 (Zpos y)) with true
      end
    | progress cbv beta iota zeta
    | progress cbn [Js.trimStart Js.parseDigits] ].

Lemma parseInt_numeral (u : Decimal.uint) :
  u <> Decimal.Nil ->
  Js.parseInt (NilEmpty.string_of_uint u) = toDouble (Js.horner u 0)
  /\ Js.parseInt (String "-" (NilEmpty.string_of_uint u)) = toDouble (- Js.horner u 0).
Proof.
  intros Hne. destruct u as [|l|l|l|l|l|l|l|l|l|l]; [congruence|..];
    (destruct l as [|l|l|l|l|l|l|l|l|l|l];
     [split; vm_compute; reflexivity|..]);
    cbn [NilEmpty.string_of_uint Js.horner];
    pose proof (parseDigits_numeral l) as Hd; revert Hd;
    generalize (NilEmpty.string_of_uint l) as t;
    generalize (Js.horner l) as h; intros h t Hd;
    unfold Js.parseInt; eval_chars; rewrite !Hd;
    split;
    repeat match goal with
           | |- context [h ?x] =>
               let v := eval vm_compute in x in progress change x with v
           end;
    f_equal; lia.
Qed.

Lemma toDouble_safe (z : Z) : Z.abs z < 2 ^ 53 -> toDouble z = JNum z.
Proof.
  intros H. unfold toDouble. cbv zeta.
  replace (Z.abs z <? 2 ^ 53) with true by (symmetry; apply Z.ltb_lt; exact H).
  reflexivity.
Qed.

Lemma toString_safe (z : Z) : Z.abs z < 2 ^ 53 -> Js.toString z = Js.decimal z.
Proof.
  intros H. unfold Js.toString.
  replace (Z.abs z <? 2 ^ 53) with true by (symmetry; apply Z.ltb_lt; exact H).
  reflexivity.
Qed.

(** [parseInt] reads the decimal numeral of an integer as the double
    nearest to it. *)
Lemma parseInt_decimal (z : Z) : Js.parseInt (Js.decimal z) = toDouble z.
Proof.
  unfold Js.decimal. destruct z as [|p|p]; [reflexivity|..];
    cbn [Z.to_int NilZero.string_of_int];
    (assert (Hne : Pos.to_uint p <> Decimal.Nil)
       by (intros Hnil; pose proof (DecimalPos.Unsigned.of_to p) as H;
           rewrite Hnil in H; discriminate));
    pose proof (horner_of_uint (Pos.to_uint p)) as Hh;
    rewrite DecimalPos.Unsigned.of_to in Hh; cbn [Z.of_N] in Hh;
    destruct (parseInt_numeral (Pos.to_uint p) Hne) as [Hpos Hneg];
    unfold NilZero.string_of_uint;
    destruct (Pos.to_uint p) eqn:Hu; try congruence;
    rewrite <- ?Hu in *; first [rewrite Hpos | rewrite Hneg]; f_equal; lia.
Qed.

Lemma decimal_not_empty (z : Z) : Js.decimal z <> ""%string.
Proof.
  unfold Js.decimal. destruct z as [|p|p]; [discriminate| |discriminate].
  cbn [Z.to_int NilZero.string_of_int]. unfold NilZero.string_of_uint.
  destruct (Pos.to_uint p); discriminate.
Qed.

(** A 429 response whose Retry-After header is the decimal numeral of
    [n] seconds carries [retryAfter = 1000 * n] milliseconds, for every
    [n] whose milliseconds a double holds exactly: [1000 * |n| <= 2^53]. *)
Theorem retry_after_seconds_to_milliseconds (r : RequestUrlResponse) (n : Z) :
  status r = 429 ->
  Z.abs n <= 9007199254740 ->
  headers r !! "retry-after"%string = Some (Js.toString n) ->
  exists limit remaining,
    handleErrorResponse r
    = RATE_LIMIT_ERROR "Rate limit exceeded" (Some (JNum (1000 * n)))
                       limit remaining.
Proof.
  intros Hs Hn Hh. rewrite (handleErrorResponse_429 r Hs).
  eexists _, _. f_equal. f_equal. unfold headerInt. rewrite Hh.
  assert (H53 : 2 ^ 53 = 9007199254740992) by reflexivity.
  rewrite toString_safe by lia.
  unfold Js.or_default, Js.or_else.
  destruct (String.eqb_spec (Js.decimal n) "") as [He|_];
    [exfalso; exact (decimal_not_empty n He)|].
  rewrite parseInt_decimal, toDouble_safe by lia.
  cbn [jsnum_mul]. rewrite toDouble_safe by lia. f_equal. lia.
Qed.

Lemma retry_after_seconds_to_milliseconds_witness :
  exists limit remaining,
    handleErrorResponse (withRetryAfter "3600")
    = RATE_LIMIT_ERROR "Rate limit exceeded" (Some (JNum (1000 * 3600)))
                       limit remaining.
Proof.
  apply (retry_after_seconds_to_milliseconds (withRetryAfter "3600") 3600);
    [reflexivity | lia | reflexivity].
Defined.


(** *** The query string *)

Lemma count_append (c : ascii) (a b : string) :
  Js.count c (a ++ b)%string = (Js.count c a + Js.count c b)%nat.
Proof.
  induction a as [|d a IH]; [reflexivity|].
  change (String d a ++ b)%string with (String d (a ++ b)%string).
  cbn [Js.count]. rewrite IH. lia.
Qed.

Lemma hexDigit_unreserved (c : ascii) :
  Js.isUnreserved (Js.hexDigit (N_of_ascii c / 16)) = true
  /\ Js.isUnreserved (Js.hexDigit (N_of_ascii c mod 16)) = true.
Proof.
  destruct c as [[] [] [] [] [] [] [] []]; vm_compute; split; reflexivity.
Qed.

Lemma hexValue_hexDigit (c : ascii) :
  ascii_of_N (16 * Js.hexValue (Js.hexDigit (N_of_ascii c / 16))
              + Js.hexValue (Js.hexDigit (N_of_ascii c mod 16))) = c.
Proof.
  destruct c as [[] [] [] [] [] [] [] []]; vm_compute; reflexivity.
Qed.

Lemma unreserved_differs (c d : ascii) :
  Js.isUnreserved c = false -> Js.isUnreserved d = true -> Ascii.eqb c d = false.
Proof.
  intros Hc Hd. destruct (Ascii.eqb c d) eqn:E; [|reflexivity].
  apply Ascii.eqb_eq in E. congruence.
Qed.

(** An encoded text consists of unreserved characters and [%]. *)
Lemma encoded_characters (c : ascii) (s : string) :
  Js.isUnreserved c = false -> c <> "%"%char ->
  Js.count c (Js.encodeURIComponent s) = 0%nat.
Proof.
  intros Hc Hp. induction s as [|d s IH]; [reflexivity|].
  cbn [Js.encodeURIComponent]. rewrite count_append, IH.
  destruct (Js.isUnreserved d) eqn:Hd.
  - cbn [Js.count]. rewrite (unreserved_differs c d Hc Hd). reflexivity.
  - unfold Js.percentEncode. cbv zeta. cbn [Js.count].
    destruct (hexDigit_unreserved d) as [H1 H2].
    rewrite (unreserved_differs c _ Hc H1), (unreserved_differs c _ Hc H2).
    replace (Ascii.eqb c "%") with false
      by (symmetry; apply Ascii.eqb_neq; exact Hp).
    reflexivity.
Qed.

Lemma append_cancel (u a b : string) : (u ++ a)%string = (u ++ b)%string -> a = b.
Proof.
  induction u as [|c u IH]; [exact id|].
  change (String c u ++ a)%string with (String c (u ++ a)%string).
  change (String c u ++ b)%string with (String c (u ++ b)%string).
  intros H. injection H as H. exact (IH H).
Qed.

Lemma append_empty_r (u : string) : (u ++ EmptyString)%string = u.
Proof.
  induction u as [|c u IH]; [reflexivity|].
  change (String c u ++ EmptyString)%string with (String c (u ++ EmptyString)%string).
  rewrite IH. reflexivity.
Qed.

(** Two texts that agree up to the first occurrence of a separator. *)
Lemma split_at_first (c : ascii) (a a' b b' : string) :
  Js.count c a = 0%nat -> Js.count c a' = 0%nat ->
  (a ++ String c b)%string = (a' ++ String c b')%string ->
  a = a' /\ b = b'.
Proof.
  revert a'. induction a as [|d a IH]; intros [|d' a'] Ha Ha' H.
  - injection H as H. split; [reflexivity | exact H].
  - change (String d' a' ++ String c b')%string
      with (String d' (a' ++ String c b')%string) in H.
    change (EmptyString ++ String c b)%string with (String c b) in H.
    injection H as H1 H2. subst d'. cbn [Js.count] in Ha'.
    rewrite Ascii.eqb_refl in Ha'. discriminate.
  - change (String d a ++ String c b)%string
      with (String d (a ++ String c b)%string) in H.
    change (EmptyString ++ String c b')%string with (String c b') in H.
    injection H as H1 H2. subst d. cbn [Js.count] in Ha.
    rewrite Ascii.eqb_refl in Ha. discriminate.
  - change (String d a ++ String c b)%string
      with (String d (a ++ String c b)%string) in H.
    change (String d' a' ++ String c b')%string
      with (String d' (a' ++ String c b')%string) in H.
    injection H as H1 H2. subst d'.
    cbn [Js.count] in Ha, Ha'.
    destruct (IH a' ltac:(lia) ltac:(lia) H2) as [-> ->].
    split; reflexivity.
Qed.

Lemma percent_reserved (c : ascii) : Js.isUnreserved c = true -> c <> "%"%char.
Proof. intros H ->. vm_compute in H. discriminate. Qed.

Lemma encodeURIComponent_injective (a : string) :
  forall b, Js.encodeURIComponent a = Js.encodeURIComponent b -> a = b.
Proof.
  induction a as [|c a IH]; intros [|d b] H.
  - reflexivity.
  - cbn [Js.encodeURIComponent] in H. unfold Js.percentEncode in H.
    destruct (Js.isUnreserved d); discriminate H.
  - cbn [Js.encodeURIComponent] in H. unfold Js.percentEncode in H.
    destruct (Js.isUnreserved c); discriminate H.
  - cbn [Js.encodeURIComponent] in H. unfold Js.percentEncode in H.
    cbv zeta in H.
    destruct (Js.isUnreserved c) eqn:Hc, (Js.isUnreserved d) eqn:Hd;
      repeat match type of H with
        | context [(String ?x ?r ++ ?t)%string] =>
            change (String x r ++ t)%string with (String x (r ++ t)%string) in H
        | context [(EmptyString ++ ?t)%string] =>
            change (EmptyString ++ t)%string with t in H
        end.
    + injection H as H1 H2. rewrite H1, (IH b H2). reflexivity.
    + injection H as H1 _. exfalso. exact (percent_reserved c Hc H1).
    + injection H as H1 _. exfalso. exact (percent_reserved d Hd (eq_sym H1)).
    + injection H as H1 H2 H3.
      rewrite <- (hexValue_hexDigit c), <- (hexValue_hexDigit d), H1, H2, (IH b H3).
      reflexivity.
Qed.

Lemma entry_counts (c : ascii) (key value : string) :
  Js.isUnreserved c = false -> c <> "%"%char ->
  Js.count c (Js.encodeURIComponent key ++ "=" ++ Js.encodeURIComponent value)%string
  = if Ascii.eqb c "=" then 1%nat else 0%nat.
Proof.
  intros Hc Hp. rewrite !count_append, !encoded_characters by assumption.
  cbn [Js.count]. lia.
Qed.

Lemma queryString_cons (p q : string * string) (l : list (string * string)) :
  queryString (p :: q :: l)
  = (queryString [p] ++ String "&" (queryString (q :: l)))%string.
Proof. destruct p, q. reflexivity. Qed.

Lemma queryString_single (key value : string) :
  queryString [(key, value)]
  = (Js.encodeURIComponent key ++ String "=" (Js.encodeURIComponent value))%string.
Proof. reflexivity. Qed.

Lemma queryString_counts (c : ascii) (entries : list (string * string)) :
  Js.isUnreserved c = false -> c <> "%"%char ->
  Js.count c (queryString entries)
  = if Ascii.eqb c "=" then length entries
    else if Ascii.eqb c "&" then (length entries - 1)%nat
    else 0%nat.
Proof.
  intros Hc Hp. induction entries as [|[k v] [|q l] IH].
  - cbn. destruct (Ascii.eqb c "="), (Ascii.eqb c "&"); reflexivity.
  - rewrite queryString_single.
    change (String "=" (Js.encodeURIComponent v))
      with ("=" ++ Js.encodeURIComponent v)%string.
    rewrite entry_counts by assumption. cbn [length].
    destruct (Ascii.eqb c "="), (Ascii.eqb c "&"); reflexivity.
  - rewrite queryString_cons, count_append. cbn [Js.count]. rewrite IH.
    rewrite queryString_single.
    change (String "=" (Js.encodeURIComponent v))
      with ("=" ++ Js.encodeURIComponent v)%string.
    rewrite entry_counts by assumption. cbn [length].
    destruct (Ascii.eqb c "=") eqn:E1, (Ascii.eqb c "&") eqn:E2; try lia.
    apply Ascii.eqb_eq in E1, E2. congruence.
Qed.

Lemma queryString_injective (entries : list (string * string)) :
  forall entries', queryString entries = queryString entries' -> entries = entries'.
Proof.
  assert (Hsingle : forall k v k' v',
             queryString [(k, v)] = queryString [(k', v')] -> (k, v) = (k', v')).
  { intros k v k' v' H. rewrite !queryString_single in H.
    apply split_at_first in H;
      [| apply encoded_characters; [reflexivity | discriminate] ..].
    destruct H as [Hk Hv].
    apply encodeURIComponent_injective in Hk, Hv. congruence. }
  assert (Hamp : forall p, Js.count "&" (queryString [p]) = 0%nat).
  { intros p. rewrite queryString_counts; [reflexivity | reflexivity | discriminate]. }
  induction entries as [|[k v] l IH]; intros l' H.
  - destruct l' as [|p' l']; [reflexivity|].
    apply (f_equal (Js.count "=")) in H.
    rewrite !queryString_counts in H by (reflexivity || discriminate).
    discriminate H.
  - destruct l' as [|[k' v'] l'].
    { apply (f_equal (Js.count "=")) in H.
      rewrite !queryString_counts in H by (reflexivity || discriminate).
      discriminate H. }
    assert (Hlen : length l = length l').
    { apply (f_equal (Js.count "=")) in H.
      rewrite !queryString_counts in H by (reflexivity || discriminate).
      cbn in H. lia. }
    destruct l as [|q l], l' as [|q' l']; try discriminate Hlen.
    + rewrite (Hsingle _ _ _ _ H). reflexivity.
    + rewrite !queryString_cons in H.
      apply split_at_first in H; [| apply Hamp ..].
      destruct H as [H1 H2].
      rewrite (Hsingle _ _ _ _ H1), (IH _ H2). reflexivity.
Qed.

(** Keys and values cannot add separators to a URL: the query string built
    from [n] parameters contains exactly [n] equals signs and [n - 1]
    ampersands, whatever the keys and values are, and apart from these,
    [%] and the unreserved characters (letters, digits, [- _ . ! ~ * ' ( )])
    no character occurs in it: no [?], [#], [/], space or quote. *)
Theorem query_string_separators (entries : list (string * string)) (c : ascii) :
  Js.count "=" (queryString entries) = length entries
  /\ Js.count "&" (queryString entries) = (length entries - 1)%nat
  /\ (Js.count c (queryString entries) <> 0%nat ->
      Js.isUnreserved c = true \/ c = "%"%char \/ c = "="%char \/ c = "&"%char).
Proof.
  split; [|split].
  - rewrite queryString_counts; [reflexivity | reflexivity | discriminate].
  - rewrite queryString_counts; [reflexivity | reflexivity | discriminate].
  - intros Hocc. destruct (Js.isUnreserved c) eqn:Hc; [left; reflexivity | right].
    destruct (Ascii.eqb c "%") eqn:Hp; [left; apply Ascii.eqb_eq, Hp | right].
    apply Ascii.eqb_neq in Hp.
    rewrite queryString_counts in Hocc by assumption.
    destruct (Ascii.eqb c "=") eqn:E1; [left; apply Ascii.eqb_eq, E1 | right].
    destruct (Ascii.eqb c "&") eqn:E2; [apply Ascii.eqb_eq, E2 | congruence].
Qed.

(** The URL determines the parameters: for one base URL and path, two
    parameter lists that give the same URL are the same list, with the
    same keys and values in the same order.  Nothing is lost or merged by
    the encoding. *)
Theorem url_determines_parameters
    (baseUrl path : string) (params params' : list (string * string)) :
  buildUrl baseUrl path (Some params) = buildUrl baseUrl path (Some params') ->
  params = params'.
Proof.
  unfold buildUrl. cbv zeta.
  set (url := if String.prefix "http" path then path else (baseUrl ++ path)%string).
  intros H.
  destruct params as [|p l], params' as [|p' l'].
  - reflexivity.
  - rewrite <- (append_empty_r url) in H at 1.
    apply append_cancel in H. discriminate H.
  - rewrite <- (append_empty_r url) in H at 2.
    apply append_cancel in H. discriminate H.
  - apply append_cancel in H.
    change ("?" ++ ?x)%string with (String "?" x) in H.
    injection H as H. exact (queryString_injective _ _ H).
Qed.

Lemma url_determines_parameters_witness :
  [("jql", "a&b=c"); ("maxResults", "50")]
  = [("jql", "a&b=c"); ("maxResults", "50")].
Proof.
  apply (url_determines_parameters "https://x.atlassian.net" "/rest/api/3/search").
  reflexivity.
Defined.

End ObsidianHttpClientSpec.

(** ** The axios-based client *)

Module HttpClientSpec.
Import HttpClient.

Section Loop.

Context {T : Type}.
Variable axiosRequest : nat -> AxiosOutcome T.
Variable maxRetries : Z.



Lemma axios_requestFrom_rethrows (fuel attempt : nat) (lastError : option caught)
    (error : caught) :
  Z.of_nat attempt <= maxRetries ->
  axiosRequest attempt = RejectsWith error ->
  (Z.of_nat attempt <? maxRetries)
    && (isServerError error || isNetworkError error) = false ->
  requestFrom axiosRequest maxRetries (S fuel) attempt lastError
  = (Rethrown error, [EvTransport attempt]).
Proof.
  intros Hle Hax Hno. cbn [requestFrom].
  replace (Z.of_nat attempt <=? maxRetries) with true
    by (symmetry; apply Z.leb_le; lia).
  rewrite Hax, Hno.
  destruct (isClientError error || isAuthError error); [reflexivity|].
  destruct (isRateLimitError error); reflexivity.
Qed.



End Loop.





(** An error that the response interceptor has converted is never
    retried.  When [axiosInstance.request] rejects with a typed error
    object, as [handleError] builds them, [request] throws it after that
    single call, for every [maxRetries >= 0] and also when the object was
    built from a 5xx response or from a failure without a response; the
    same holds of whatever the interceptor rejects with, the RangeError
    included. *)
Theorem converted_errors_are_not_retried {T : Type}
    (axiosRequest : nat -> AxiosOutcome T) (maxRetries : Z) :
  0 <= maxRetries ->
  (forall e : HttpServiceError,
      axiosRequest 0%nat = RejectsWith (Typed e) ->
      request axiosRequest maxRetries = (Rethrown (Typed e), [EvTransport 0]))
  /\ (forall (now : Z) (original : caught),
        axiosRequest 0%nat = RejectsWith (onRejected now original) ->
        request axiosRequest maxRetries
        = (Rethrown (onRejected now original), [EvTransport 0])).
Proof.
  intros Hm.
  assert (Hone : forall error,
             isServerError error || isNetworkError error = false ->
             axiosRequest 0%nat = RejectsWith error ->
             request axiosRequest maxRetries = (Rethrown error, [EvTransport 0])).
  { intros error Hno Hax. unfold request.
    replace (Z.to_nat (maxRetries + 1)) with (S (Z.to_nat maxRetries)) by lia.
    apply axios_requestFrom_rethrows; [cbn; lia | assumption |].
    rewrite Hno. apply andb_false_r. }
  split.
  - intros e. apply Hone. reflexivity.
  - intros now original. apply Hone. unfold onRejected.
    destruct (handleError now original) as [e|[e|m st|]]; reflexivity.
Qed.

Lemma converted_errors_are_not_retried_witness :
  request (T := string)
          (axiosInstanceRequest (fun _ => 1700000000000)
                                (fun _ => RejectsWith (axiosStatus 503))) 3
  = (Rethrown (Typed (Service (JIRA_API_ERROR 503 "" "Request failed" None))),
     [EvTransport 0]).
Proof.
  destruct (converted_errors_are_not_retried
              (T := string)
              (axiosInstanceRequest (fun _ => 1700000000000)
                                    (fun _ => RejectsWith (axiosStatus 503))) 3)
    as [Htyped _]; [lia|].
  apply Htyped. reflexivity.
Defined.

(** C4, by client.  With [maxRetries = 3] and a server that answers every
    call with status 503, [ObsidianHttpClient.request] calls [requestUrl]
    four times and then throws the JIRA_API_ERROR with status 503.
    [HttpClient.request] does not: the response interceptor has replaced
    the axios error by the typed JIRA_API_ERROR, which is no axios error,
    so [isServerError] fails on it and the [throw error] after the retry
    test ends the request after one call, without a pause. *)
Theorem exhausted_retries_503 {T : Type}
    (transport : nat -> ObsidianHttpClient.TransportOutcome)
    (adapter : nat -> AxiosOutcome T) (now : nat -> Z) :
  (forall k, exists r,
      transport k = ObsidianHttpClient.Response r
      /\ ObsidianHttpClient.status r = 503) ->
  (forall k, exists message code resp url,
      adapter k = RejectsWith (FromAxios message code (Some resp) url)
      /\ ax_status resp = 503) ->
  (exists message errorMessages,
      fst (ObsidianHttpClient.request transport 3)
      = Throw (ServiceError (JIRA_API_ERROR 503 "503" message errorMessages))
      /\ ObsidianHttpClient.transportCalls
           (snd (ObsidianHttpClient.request transport 3)) = 4%nat)
  /\ (exists statusText message errorMessages,
        request (axiosInstanceRequest now adapter) 3
        = (Rethrown (Typed (Service (JIRA_API_ERROR 503 statusText message
                                                    errorMessages))),
           [EvTransport 0])
        /\ ObsidianHttpClient.transportCalls
             (snd (request (axiosInstanceRequest now adapter) 3)) = 1%nat).
Proof.
  intros Hall Haxios. split.
  - destruct (ObsidianHttpClientSpec.obsidian_exhausted_retries_503 transport Hall)
      as (r3 & message & ems & _ & _ & Hreq & Hn).
    exists message, ems. split; [rewrite Hreq; reflexivity | exact Hn].
  - destruct (Haxios 0%nat) as (message & code & resp & url & Had & Hst).
    assert (Hrej : axiosInstanceRequest now adapter 0%nat
                   = RejectsWith
                       (Typed (Service
                                 (JIRA_API_ERROR
                                    503 (ax_statusText resp)
                                    (responseMessage (ax_data resp) message
                                                     "API error occurred")
                                    (match ax_data resp with
                                     | Some b => ObsidianHttpClient.body_errorMessages b
                                     | None => None
                                     end))))).
    { unfold axiosInstanceRequest. rewrite Had.
      unfold onRejected, handleError. rewrite Hst. reflexivity. }
    eexists _, _, _.
    assert (Hreq : request (axiosInstanceRequest now adapter) 3
                   = (Rethrown
                        (Typed (Service
                                  (JIRA_API_ERROR
                                     503 (ax_statusText resp)
                                     (responseMessage (ax_data resp) message
                                                      "API error occurred")
                                     (match ax_data resp with
                                      | Some b =>
                                          ObsidianHttpClient.body_errorMessages b
                                      | None => None
                                      end)))),
                      [EvTransport 0])).
    { unfold request. change (Z.to_nat (3 + 1)) with 4%nat.
      apply axios_requestFrom_rethrows; [cbn; lia | exact Hrej | reflexivity]. }
    rewrite Hreq. split; reflexivity.
Qed.

Lemma exhausted_retries_503_witness :
  ObsidianHttpClient.transportCalls
    (snd (ObsidianHttpClient.request
            (ObsidianHttpClient.always (ObsidianHttpClient.plainResponse 503)) 3))
  = 4%nat
  /\ request (T := string)
             (axiosInstanceRequest (fun _ => 1700000000000)
                                   (fun _ => RejectsWith (axiosStatus 503))) 3
     = (Rethrown (Typed (Service (JIRA_API_ERROR 503 "" "Request failed" None))),
        [EvTransport 0]).
Proof.
  destruct (exhausted_retries_503
              (T := string)
              (ObsidianHttpClient.always (ObsidianHttpClient.plainResponse 503))
              (fun _ => RejectsWith (axiosStatus 503))
              (fun _ => 1700000000000))
    as [(m & ems & _ & Hn) (st & m' & ems' & Hreq & _)].
  - intros k. exists (ObsidianHttpClient.plainResponse 503). split; reflexivity.
  - intros k. eexists _, _, _, _. split; reflexivity.
  - split; [exact Hn|]. vm_compute. reflexivity.
Defined.

End HttpClientSpec.


(** ** The service *)

Module JiraApiServiceSpec.

Import ObsidianHttpClient JiraApiService.

(** *** One acquisition per logical request *)

(** The executor never touches the limiter: its trace holds no
    acquisition. *)
Lemma requestFrom_never_acquires
    (transport : nat -> TransportOutcome) (maxRetries : Z) (fuel : nat) :
  forall attempt lastError,
    acquireCalls (snd (requestFrom transport maxRetries fuel attempt lastError))
    = 0%nat.
Proof.
  induction fuel as [|fuel IH]; intros attempt lastError; [reflexivity|].
  cbn [requestFrom]. unfold catchClause.
  repeat match goal with
         | |- context [match ?x with _ => _ end] =>
             lazymatch x with
             | context [requestFrom] => fail
             | _ => destruct x eqn:?
             end
         end;
    repeat match goal with
           | |- context [requestFrom transport maxRetries fuel (S attempt) ?e] =>
               let H := fresh "IHe" in
               pose proof (IH (S attempt) e) as H;
               destruct (requestFrom transport maxRetries fuel (S attempt) e);
               cbn [snd] in H
           end;
    cbn [snd]; unfold acquireCalls in *;
    cbn [List.filter isAcquire length]; first [assumption | reflexivity].
Qed.

(** C1, as the code has it. A logical request calls [acquireToken] exactly
    once, before any transport attempt. When the token is denied nothing
    is sent and RATE_LIMIT_ERROR is thrown; when it is granted the bucket
    loses one token and the executor runs all its attempts, retries
    included, without acquiring again. *)
Theorem one_acquisition_per_logical_request
    (now : Z) (rateLimiter : RateLimiter.t)
    (transport : nat -> TransportOutcome) (maxRetries : Z) :
  let '(res, rateLimiter', tr) :=
    getIssueRequestFn now rateLimiter transport maxRetries in
  exists granted rest,
    tr = EvAcquire granted :: rest
    /\ acquireCalls tr = 1%nat
    /\ if granted
       then rest = snd (request transport maxRetries)
            /\ res = fst (request transport maxRetries)
            /\ RateLimiter.tokens rateLimiter'
               = RateLimiter.tokens (RateLimiter.refillTokens now rateLimiter) - 1
       else rest = []
            /\ transportCalls tr = 0%nat
            /\ rateLimiter' = RateLimiter.refillTokens now rateLimiter
            /\ exists retryAfter,
                 res = Throw (ServiceError
                                (RATE_LIMIT_ERROR "Rate limit exceeded"
                                                  retryAfter None None)).
Proof.
  unfold getIssueRequestFn, checkRateLimit, RateLimiter.acquireToken.
  destruct (0 <? RateLimiter.tokens (RateLimiter.refillTokens now rateLimiter));
    cbn [RateLimiter.allowed].
  - pose proof (requestFrom_never_acquires transport maxRetries
                  (Z.to_nat (maxRetries + 1)) 0 Undefined) as Hn.
    fold (request transport maxRetries) in Hn.
    destruct (request transport maxRetries) as [r tr'] eqn:Hreq.
    exists true, tr'. cbn [snd fst app] in *.
    split; [reflexivity|]. split.
    + unfold acquireCalls in *. cbn [List.filter isAcquire length].
      rewrite Hn. reflexivity.
    + repeat split.
  - exists false, []. split; [reflexivity|]. split; [reflexivity|].
    repeat split. eexists. reflexivity.
Qed.

(** C1, as stated, fails: against a server answering 503 the request of
    [getIssue] takes one token and sends four attempts; the three retries
    have no acquisition of their own. *)
Lemma retries_take_no_token :
  let '(_, rateLimiter', tr) :=
    getIssueRequestFn 0 (RateLimiter.constructor 100 100 None 0)
                      (always (plainResponse 503)) 3 in
  tr = [EvAcquire true; EvTransport 0; EvSleep 1000; EvTransport 1;
        EvSleep 2000; EvTransport 2; EvSleep 4000; EvTransport 3]
  /\ eachAttemptAcquires false tr = false
  /\ acquireCalls tr = 1%nat
  /\ transportCalls tr = 4%nat
  /\ RateLimiter.tokens rateLimiter' = 99.
Proof. vm_compute. repeat split. Qed.

(** *** The promise store *)

Lemma step_wellFormed (s : t) (e : event) : wellFormed s -> wellFormed (step s e).
Proof.
  intros [I1 I2 I3 I4]. destruct e as [k f | q o |]; cbn [step].
  - unfold deduplicateRequest.
    destruct (requestDeduplicationMap s !! k) as [p|] eqn:Hk; cbn [snd].
    { constructor; assumption. }
    destruct (fn_behaviour f); cbn [snd].
    + constructor; cbn.
      * intros k' p Hl. apply lookup_insert_Some in Hl as [[<- <-]|[Hne Hl]].
        -- apply lookup_insert_eq.
        -- pose proof (I2 _ _ (I1 _ _ Hl)) as Hlt.
           rewrite lookup_insert_ne by lia. exact (I1 _ _ Hl).
      * intros p k' Hl. apply lookup_insert_Some in Hl as [[<- <-]|[Hne Hl]];
          [lia | pose proof (I2 _ _ Hl); lia].
      * intros p k' Hl. apply lookup_insert_Some in Hl as [[<- <-]|[Hne Hl]].
        -- destruct (outcome s !! nextPromise s) as [o|] eqn:Ho; [|reflexivity].
           pose proof (I4 _ _ Ho). lia.
        -- exact (I3 _ _ Hl).
      * intros p o Ho. pose proof (I4 _ _ Ho). lia.
    + constructor; cbn; assumption.
  - unfold settle. destruct (cleanup s !! q) as [kq|] eqn:Hq.
    + constructor; cbn.
      * intros k p Hl. apply lookup_delete_Some in Hl as [Hne Hl].
        pose proof (I1 _ _ Hl) as Hc.
        rewrite lookup_delete_ne; [exact Hc|]. intros ->. congruence.
      * intros p k Hl. apply lookup_delete_Some in Hl as [_ Hl]. exact (I2 _ _ Hl).
      * intros p k Hl. apply lookup_delete_Some in Hl as [Hne Hl].
        rewrite lookup_insert_ne by exact Hne. exact (I3 _ _ Hl).
      * intros p o' Ho. apply lookup_insert_Some in Ho as [[<- _]|[_ Ho]];
          [exact (I2 _ _ Hq) | exact (I4 _ _ Ho)].
    + constructor; assumption.
  - constructor; cbn; try assumption.
    intros k p Hl. rewrite lookup_empty in Hl. discriminate.
Qed.

Lemma init_wellFormed : wellFormed init.
Proof.
  constructor; cbn; intros ? ? H; rewrite lookup_empty in H; discriminate.
Qed.

Lemma exec_wellFormed (evs : list event) :
  forall s, wellFormed s -> wellFormed (exec s evs).
Proof.
  induction evs as [|e evs IH]; intros s H; [exact H|].
  apply IH, step_wellFormed, H.
Qed.

Lemma idleKey_spec (k : string) (s : t) :
  idleKey k s = true -> forall q, cleanup s !! q <> Some k.
Proof.
  unfold idleKey. intros H q Hq.
  rewrite forallb_forall in H.
  apply elem_of_map_to_list, list_elem_of_In, H in Hq. cbn in Hq.
  rewrite String.eqb_refl in Hq. discriminate.
Qed.

(** As long as the service is not destroyed, every pending cleanup belongs
    to the entry stored under its key; a key without an entry is idle. *)
Lemma cleanup_has_entry (evs : list event) :
  forall s,
    (forall q k, cleanup s !! q = Some k -> requestDeduplicationMap s !! k = Some q) ->
    destroyFree evs = true ->
    forall q k, cleanup (exec s evs) !! q = Some k ->
                requestDeduplicationMap (exec s evs) !! k = Some q.
Proof.
  induction evs as [|e evs IH]; intros s I5 Hfree; [exact I5|].
  cbn [destroyFree forallb] in Hfree. apply andb_true_iff in Hfree as [He Hevs].
  cbn [exec fold_left]. fold (exec (step s e) evs).
  apply IH; [|exact Hevs]. clear IH Hevs.
  destruct e as [k0 f | q0 o |]; [| |discriminate]; cbn [step].
  - unfold deduplicateRequest.
    destruct (requestDeduplicationMap s !! k0) as [p|] eqn:Hk0; cbn [snd];
      [exact I5|].
    destruct (fn_behaviour f); cbn; [|exact I5].
    intros q k Hq. apply lookup_insert_Some in Hq as [[<- <-]|[Hne Hq]].
    + apply lookup_insert_eq.
    + rewrite lookup_insert_ne; [exact (I5 _ _ Hq)|].
      intros <-. pose proof (I5 _ _ Hq). congruence.
  - unfold settle. destruct (cleanup s !! q0) as [kq|] eqn:Hq0; cbn; [|exact I5].
    intros q k Hq. apply lookup_delete_Some in Hq as [Hne Hq].
    rewrite lookup_delete_ne; [exact (I5 _ _ Hq)|].
    intros <-. pose proof (I5 _ _ Hq0). pose proof (I5 _ _ Hq). congruence.
Qed.

Lemma idleKey_without_destroy (history : list event) (k : string) :
  destroyFree history = true ->
  requestDeduplicationMap (exec init history) !! k = None ->
  idleKey k (exec init history) = true.
Proof.
  intros Hfree Hk. unfold idleKey. apply forallb_forall.
  intros [q k'] Hin. cbn [snd].
  apply list_elem_of_In, elem_of_map_to_list in Hin.
  apply negb_true_iff. destruct (String.eqb_spec k' k) as [->|]; [|reflexivity].
  pose proof (cleanup_has_entry history init) as H.
  rewrite (H ltac:(intros ? ? Hq; cbn in Hq; rewrite lookup_empty in Hq;
                   discriminate) Hfree q k Hin) in Hk.
  discriminate.
Qed.

(** The first call for an idle key stores a fresh promise. *)
Lemma first_call_starts_flight (k : string) (f : requestFn) (s : t) :
  wellFormed s ->
  idleKey k s = true ->
  fn_behaviour f = ReturnsPromise ->
  deduplicateRequest k f s
  = (Shared (nextPromise s), snd (deduplicateRequest k f s))
  /\ inFlight k (nextPromise s) (snd (deduplicateRequest k f s))
  /\ invokedFor k (snd (deduplicateRequest k f s)) = fn_id f :: invokedFor k s.
Proof.
  intros [I1 I2 I3 I4] Hidle Hf.
  pose proof (idleKey_spec k s Hidle) as Hno.
  unfold deduplicateRequest.
  destruct (requestDeduplicationMap s !! k) as [p|] eqn:Hk.
  { exfalso. exact (Hno p (I1 _ _ Hk)). }
  rewrite Hf. cbn [snd]. split; [reflexivity|]. split.
  - constructor; cbn.
    + apply lookup_insert_eq.
    + apply lookup_insert_eq.
    + intros q Hq. apply lookup_insert_Some in Hq as [[<- _]|[_ Hq]];
        [reflexivity | exfalso; exact (Hno q Hq)].
    + intros q k' Hq. apply lookup_insert_Some in Hq as [[<- _]|[_ Hq]];
        [lia | pose proof (I2 _ _ Hq); lia].
  - unfold invokedFor. cbn. rewrite String.eqb_refl. reflexivity.
Qed.

(** One more event while [p] is in flight under [k]. *)
Lemma step_inFlight (k : string) (p : nat) (s : t) (e : event) :
  inFlight k p s ->
  keepsInFlight p [e] = true ->
  inFlight k p (step s e)
  /\ invokedFor k (step s e) = invokedFor k s
  /\ Forall (fun fut => fut = Shared p) (futuresFor k s [e]).
Proof.
  intros [F1 F2 F3 F4] Hkeep. destruct e as [k' f | q o |]; cbn in Hkeep.
  - cbn [step futuresFor]. unfold deduplicateRequest.
    destruct (String.eqb_spec k' k) as [->|Hne].
    + rewrite F1. cbn [snd fst].
      split; [constructor; assumption|]. split; [reflexivity|].
      repeat constructor.
    + destruct (requestDeduplicationMap s !! k') as [p'|] eqn:Hk'; cbn [snd].
      { split; [constructor; assumption|]. split; [reflexivity | constructor]. }
      destruct (fn_behaviour f); cbn [snd].
      * split; [|split; [|constructor]].
        -- constructor; cbn.
           ++ rewrite lookup_insert_ne by exact Hne. exact F1.
           ++ pose proof (F4 _ _ F2). rewrite lookup_insert_ne by lia. exact F2.
           ++ intros q Hq. apply lookup_insert_Some in Hq as [[_ Heq]|[_ Hq]];
                [congruence | exact (F3 q Hq)].
           ++ intros q k0 Hq. apply lookup_insert_Some in Hq as [[<- _]|[_ Hq]];
                [lia | pose proof (F4 _ _ Hq); lia].
        -- unfold invokedFor. cbn.
           destruct (String.eqb_spec k' k); [congruence | reflexivity].
      * split; [constructor; assumption|]. split; [|constructor].
        unfold invokedFor. cbn.
        destruct (String.eqb_spec k' k); [congruence | reflexivity].
  - cbn [step futuresFor]. rewrite andb_true_r in Hkeep.
    apply negb_true_iff, Nat.eqb_neq in Hkeep.
    unfold settle. destruct (cleanup s !! q) as [kq|] eqn:Hq.
    + assert (Hkq : kq <> k) by (intros ->; apply Hkeep, F3, Hq).
      split; [|split; [reflexivity | constructor]].
      constructor; cbn.
      * rewrite lookup_delete_ne by exact Hkq. exact F1.
      * rewrite lookup_delete_ne by exact Hkeep. exact F2.
      * intros q' Hq'. apply lookup_delete_Some in Hq' as [_ Hq']. exact (F3 q' Hq').
      * intros q' k0 Hq'. apply lookup_delete_Some in Hq' as [_ Hq'].
        exact (F4 _ _ Hq').
    + split; [constructor; assumption|]. split; [reflexivity | constructor].
  - discriminate.
Qed.

Lemma futuresFor_cons (k : string) (s : t) (e : event) (evs : list event) :
  futuresFor k s (e :: evs) = futuresFor k s [e] ++ futuresFor k (step s e) evs.
Proof.
  cbn [futuresFor]. destruct e as [k' f | |]; try reflexivity.
  destruct (String.eqb k' k); reflexivity.
Qed.

Lemma schedule_inFlight (k : string) (p : nat) (evs : list event) :
  forall s,
    inFlight k p s ->
    keepsInFlight p evs = true ->
    inFlight k p (exec s evs)
    /\ invokedFor k (exec s evs) = invokedFor k s
    /\ Forall (fun fut => fut = Shared p) (futuresFor k s evs).
Proof.
  induction evs as [|e evs IH]; intros s Hfl Hkeep.
  - split; [exact Hfl|]. split; [reflexivity | constructor].
  - cbn [keepsInFlight forallb] in Hkeep. apply andb_true_iff in Hkeep as [He Hevs].
    destruct (step_inFlight k p s e Hfl) as (Hfl' & Hinv & Hfut).
    { cbn. rewrite He. reflexivity. }
    destruct (IH (step s e) Hfl' Hevs) as (Hfl'' & Hinv' & Hfut').
    cbn [exec fold_left]. fold (exec (step s e) evs).
    split; [exact Hfl''|]. split; [congruence|].
    rewrite futuresFor_cons. apply Forall_app. split; assumption.
Qed.

Lemma futuresFor_length (k : string) (evs : list event) :
  forall s, length (futuresFor k s evs) = callers k evs.
Proof.
  induction evs as [|e evs IH]; intros s; [reflexivity|].
  unfold callers in *. cbn [futuresFor List.filter].
  destruct e as [k' f | |]; try apply IH.
  destruct (String.eqb k' k); cbn [length]; rewrite IH; reflexivity.
Qed.

(** A [Map] holds at most one entry under a key. *)
Lemma entriesFor_at_most_one (k : string) (s : t) :
  (length (entriesFor k s) <= 1)%nat.
Proof.
  unfold entriesFor.
  pose proof (NoDup_fst_map_to_list (requestDeduplicationMap s)) as Hnd.
  induction (map_to_list (requestDeduplicationMap s)) as [|[k0 v] l IH];
    [cbn; lia|].
  cbn in Hnd. apply NoDup_cons in Hnd as [Hnotin Hnd].
  cbn [List.filter fst]. destruct (String.eqb_spec k0 k) as [->|Hne].
  - assert (Hnil : List.filter (fun kv => String.eqb (fst kv) k) l = []).
    { clear IH Hnd. induction l as [|[k1 v1] l IHl]; [reflexivity|].
      cbn [List.filter fst]. destruct (String.eqb_spec k1 k) as [->|Hne].
      - exfalso. apply Hnotin. cbn. left.
      - apply IHl. intros Hin. apply Hnotin. cbn. right. exact Hin. }
    rewrite Hnil. cbn. lia.
  - apply IH, Hnd.
Qed.

(** C2. Once some history has left key [k] idle, a call whose function
    returns a promise, followed by any schedule that leaves that promise
    in flight (further calls under any key, settlements of other
    promises), invokes only the first caller's function for [k]; every
    caller that used [k] holds the same shared promise, so whichever way
    it settles, fulfilled or rejected, each of them observes that very
    settlement. A map holds at most one entry per key, in any state. *)
Theorem concurrent_calls_share_one_invocation
    (history schedule : list event) (k : string) (f : requestFn) :
  let s := exec init history in
  let p := nextPromise s in
  let s' := exec s (Call k f :: schedule) in
  let futures := futuresFor k s (Call k f :: schedule) in
  idleKey k s = true ->
  fn_behaviour f = ReturnsPromise ->
  keepsInFlight p schedule = true ->
  invokedFor k s' = fn_id f :: invokedFor k s
  /\ length futures = S (callers k schedule)
  /\ Forall (fun fut => fut = Shared p) futures
  /\ requestDeduplicationMap s' !! k = Some p
  /\ (forall o, Forall (fun fut => futureSettlement (settle p o s') fut = Some o)
                       futures)
  /\ (forall s'' k', (length (entriesFor k' s'') <= 1)%nat).
Proof.
  intros s p s' futures Hidle Hf Hkeep. subst s' futures.
  assert (Hwf : wellFormed s) by apply exec_wellFormed, init_wellFormed.
  destruct (first_call_starts_flight k f s Hwf Hidle Hf) as (Hcall & Hfl & Hinv).
  fold p in Hcall, Hfl.
  destruct (schedule_inFlight k p schedule _ Hfl Hkeep) as (Hfl' & Hinv' & Hfut).
  cbn [exec fold_left]. fold (exec (step s (Call k f)) schedule).
  cbn [step] in *.
  assert (Hall : Forall (fun fut => fut = Shared p)
                        (futuresFor k s (Call k f :: schedule))).
  { cbn [futuresFor]. rewrite String.eqb_refl. constructor.
    - rewrite Hcall. reflexivity.
    - exact Hfut. }
  split; [congruence|]. split.
  { rewrite futuresFor_length. unfold callers. cbn [List.filter].
    rewrite String.eqb_refl. reflexivity. }
  split; [exact Hall|]. split; [apply Hfl'|]. split.
  - intros o. eapply Forall_impl; [exact Hall|].
    intros fut ->. cbn [futureSettlement]. unfold settle.
    rewrite (fl_cleanup _ _ _ Hfl'). cbn. apply lookup_insert_eq.
  - intros s'' k'. apply entriesFor_at_most_one.
Qed.

Lemma concurrent_calls_share_one_invocation_witness :
  let f := {| fn_id := 7; fn_behaviour := ReturnsPromise |} in
  let g := {| fn_id := 8; fn_behaviour := ReturnsPromise |} in
  let s := exec init [Call "getIssue:A-1" f; Settle 0 (Rejected "down")] in
  let s' := exec s [Call "getIssue:A-1" f; Call "getIssue:A-1" g;
                    Call "getProjects" g; Call "getIssue:A-1" f] in
  invokedFor "getIssue:A-1" s' = [7; 7]%nat
  /\ futuresFor "getIssue:A-1" s
       [Call "getIssue:A-1" f; Call "getIssue:A-1" g;
        Call "getProjects" g; Call "getIssue:A-1" f]
     = [Shared 1; Shared 1; Shared 1].
Proof.
  intros f g s s'.
  destruct (concurrent_calls_share_one_invocation
              [Call "getIssue:A-1" f; Settle 0 (Rejected "down")]
              [Call "getIssue:A-1" g; Call "getProjects" g; Call "getIssue:A-1" f]
              "getIssue:A-1" f)
    as (Hinv & Hlen & Hall & _); [reflexivity | reflexivity | reflexivity |].
  split; [exact Hinv | reflexivity].
Defined.

(** The promise behind a future keeps its cleanup while it is not
    settled. *)
Lemma cleanup_kept (p : nat) (k : string) (evs : list event) :
  forall s,
    wellFormed s ->
    cleanup s !! p = Some k ->
    neverSettles p evs = true ->
    cleanup (exec s evs) !! p = Some k.
Proof.
  induction evs as [|e evs IH]; intros s Hwf Hp Hns; [exact Hp|].
  cbn [neverSettles forallb] in Hns. apply andb_true_iff in Hns as [He Hevs].
  cbn [exec fold_left]. fold (exec (step s e) evs).
  apply IH; [apply step_wellFormed, Hwf | | exact Hevs].
  destruct e as [k' f | q o |]; cbn [step].
  - unfold deduplicateRequest.
    destruct (requestDeduplicationMap s !! k'); cbn [snd]; [exact Hp|].
    destruct (fn_behaviour f); cbn; [|exact Hp].
    pose proof (wf_cleanup_fresh s Hwf _ _ Hp).
    rewrite lookup_insert_ne by lia. exact Hp.
  - apply negb_true_iff, Nat.eqb_neq in He.
    unfold settle. destruct (cleanup s !! q); cbn; [|exact Hp].
    rewrite lookup_delete_ne by exact He. exact Hp.
  - exact Hp.
Qed.

(** A call on a key with no entry invokes its function. *)
Lemma call_without_entry_invokes (k : string) (f : requestFn) (s : t) :
  requestDeduplicationMap s !! k = None ->
  invoked (snd (deduplicateRequest k f s)) = (k, fn_id f) :: invoked s.
Proof.
  intros H. unfold deduplicateRequest. rewrite H.
  destruct (fn_behaviour f); reflexivity.
Qed.

(** C9. After any history, take a call under [k]. If its function throws
    before returning a promise, the caller's future is rejected at once
    and no entry is stored. Otherwise the caller (the one that started
    the request, or one that joined it) holds a shared promise; whatever
    happens in between short of settling it, when that promise settles,
    fulfilled or rejected, the caller observes the settlement and the
    entry of [k] is gone. Either way the next call under [k] invokes its
    function. In every reachable state an entry of the map refers to a
    pending promise whose cleanup deletes it. *)
Theorem entry_removed_when_call_settles
    (history between : list event) (k : string) (f f2 : requestFn)
    (o : settlement) :
  let s := exec init history in
  let fut := fst (deduplicateRequest k f s) in
  let s1 := snd (deduplicateRequest k f s) in
  staysPending fut between = true ->
  match fut with
  | Failed reason =>
      fn_behaviour f = ThrowsSync reason
      /\ futureSettlement s1 fut = Some (Rejected reason)
      /\ requestDeduplicationMap s1 !! k = None
      /\ invoked (snd (deduplicateRequest k f2 s1)) = (k, fn_id f2) :: invoked s1
  | Shared p =>
      let s2 := settle p o (exec s1 between) in
      futureSettlement (exec s1 between) fut = None
      /\ futureSettlement s2 fut = Some o
      /\ requestDeduplicationMap s2 !! k = None
      /\ invoked (snd (deduplicateRequest k f2 s2)) = (k, fn_id f2) :: invoked s2
  end
  /\ (forall k' p',
        requestDeduplicationMap s !! k' = Some p' ->
        cleanup s !! p' = Some k' /\ outcome s !! p' = None).
Proof.
  intros s fut s1 Hstay. subst fut s1.
  assert (Hwf : wellFormed s) by apply exec_wellFormed, init_wellFormed.
  split.
  2:{ intros k' p' H. pose proof (wf_entry s Hwf _ _ H) as Hc.
      split; [exact Hc | exact (wf_pending s Hwf _ _ Hc)]. }
  pose proof (step_wellFormed s (Call k f) Hwf) as Hwf1. cbn [step] in Hwf1.
  revert Hstay Hwf1. unfold deduplicateRequest.
  destruct (requestDeduplicationMap s !! k) as [p|] eqn:Hk; cbn [fst snd].
  - (* joined the request in flight *)
    intros Hstay Hwf1. cbn [staysPending] in Hstay.
    pose proof (cleanup_kept p k between s Hwf (wf_entry s Hwf _ _ Hk) Hstay) as Hc.
    pose proof (exec_wellFormed between s Hwf) as Hwf2.
    split; [exact (wf_pending _ Hwf2 _ _ Hc)|].
    unfold settle. rewrite Hc. cbn [futureSettlement outcome].
    split; [apply lookup_insert_eq|].
    cbn [requestDeduplicationMap]. rewrite !lookup_delete_eq.
    split; [reflexivity|].
    destruct (fn_behaviour f2); reflexivity.
  - destruct (fn_behaviour f) as [|reason] eqn:Hf; cbn [fst snd].
    + (* started the request *)
      intros Hstay Hwf1. cbn [staysPending] in Hstay.
      match type of Hwf1 with wellFormed ?s1 =>
        pose proof (cleanup_kept (nextPromise s) k between s1 Hwf1
                      ltac:(cbn; apply lookup_insert_eq) Hstay) as Hc;
        pose proof (exec_wellFormed between s1 Hwf1) as Hwf2
      end.
      split; [exact (wf_pending _ Hwf2 _ _ Hc)|].
      unfold settle. rewrite Hc. cbn [futureSettlement outcome].
      split; [apply lookup_insert_eq|].
      cbn [requestDeduplicationMap]. rewrite !lookup_delete_eq.
      split; [reflexivity|].
      destruct (fn_behaviour f2); reflexivity.
    + (* threw before returning a promise *)
      intros _ _. split; [reflexivity|]. split; [reflexivity|].
      cbn [requestDeduplicationMap]. split; [exact Hk|].
      rewrite Hk. destruct (fn_behaviour f2); reflexivity.
Qed.

Lemma entry_removed_when_call_settles_witness :
  let f := {| fn_id := 1; fn_behaviour := ReturnsPromise |} in
  let f2 := {| fn_id := 2; fn_behaviour := ReturnsPromise |} in
  let s2 := exec init [Call "getProjects" f; Call "getProjects" f2;
                       Call "getCurrentUser" f; Settle 0 (Rejected "503")] in
  requestDeduplicationMap s2 !! "getProjects"%string = None
  /\ invoked (snd (deduplicateRequest "getProjects" f2 s2))
     = ("getProjects"%string, 2%nat) :: invoked s2.
Proof.
  intros f f2 s2.
  pose proof (entry_removed_when_call_settles
                [Call "getProjects" f]
                [Call "getCurrentUser" f]
                "getProjects" f2 f2 (Rejected "503") ltac:(reflexivity))
    as [(_ & _ & Hgone & Hnext) _].
  split; [exact Hgone | exact Hnext].
Defined.

(** *** Operations started in the same turn *)

Lemma checkMany_settled_limiter (now : Z) (n : nat) :
  forall s : RateLimiter.t,
    Qle_bool 1 (RateLimiter.tokensToAdd s now) = false ->
    fst (checkMany n now s)
    = replicate (Nat.min n (Z.to_nat (RateLimiter.tokens s))) (Return tt)
      ++ replicate (n - Z.to_nat (RateLimiter.tokens s))
           (Throw (ServiceError
                     (RATE_LIMIT_ERROR "Rate limit exceeded"
                        (Some (let rpm := RateLimiter.requestsPerMinute
                                            (RateLimiter.config s) in
                               if rpm =? 0 then JInfinity
                               else JNum (Qceiling (1 * (60000 / inject_Z rpm)))))
                        None None))).
Proof.
  induction n as [|n IH]; intros s Hstable; [reflexivity|].
  cbn [checkMany]. unfold checkRateLimit, RateLimiter.acquireToken.
  rewrite (RateLimiterSpec.refillTokens_not_fired now s Hstable).
  destruct (0 <? RateLimiter.tokens s) eqn:Hpos; cbn [RateLimiter.allowed].
  - apply Z.ltb_lt in Hpos.
    match goal with |- context [checkMany n now ?s'] =>
      specialize (IH s' Hstable); destruct (checkMany n now s') as [rs s'']
    end.
    cbn [fst RateLimiter.tokens RateLimiter.config] in *. rewrite IH.
    replace (Z.to_nat (RateLimiter.tokens s))
      with (S (Z.to_nat (RateLimiter.tokens s - 1))) by lia.
    reflexivity.
  - apply Z.ltb_ge in Hpos.
    specialize (IH s Hstable). destruct (checkMany n now s) as [rs s''].
    cbn [fst RateLimiter.retryAfter] in *. rewrite IH.
    replace (Z.to_nat (RateLimiter.tokens s)) with 0%nat by lia.
    rewrite Nat.min_0_r, !Nat.sub_0_r. cbn [replicate app].
    unfold RateLimiter.calculateRetryAfter.
    replace (0 <? RateLimiter.tokens s) with false
      by (symmetry; apply Z.ltb_ge; lia).
    reflexivity.
Qed.

(** When [n] operations are started at the same instant, the first [k]
    pass the gate and every later one is rejected with RATE_LIMIT_ERROR,
    where [k] is the number of tokens the bucket holds once refilled at
    that instant; nothing waits and nothing is retried. *)
Theorem concurrent_checks_take_available_tokens
    (n : nat) (now : Z) (rateLimiter : RateLimiter.t) :
  RateLimiter.idle rateLimiter ->
  let k := Z.to_nat (RateLimiter.tokens
                       (RateLimiter.refillTokens now rateLimiter)) in
  let rpm := RateLimiter.requestsPerMinute (RateLimiter.config rateLimiter) in
  fst (checkMany n now rateLimiter)
  = replicate (Nat.min n k) (Return tt)
    ++ replicate (n - k)
         (Throw (ServiceError
                   (RATE_LIMIT_ERROR "Rate limit exceeded"
                      (Some (if rpm =? 0 then JInfinity
                             else JNum (Qceiling (1 * (60000 / inject_Z rpm)))))
                      None None))).
Proof.
  intros Hidle k rpm. subst k rpm.
  set (s1 := RateLimiter.refillTokens now rateLimiter).
  assert (Hstable : Qle_bool 1 (RateLimiter.tokensToAdd s1 now) = false).
  { subst s1. destruct (Qle_bool 1 (RateLimiter.tokensToAdd rateLimiter now)) eqn:Hadd.
    - destruct (RateLimiterSpec.refillTokens_fired now rateLimiter Hidle Hadd)
        as [_ Hlast].
      apply Bool.not_true_iff_false. intros Hfire.
      apply RateLimiterSpec.tokensToAdd_fires in Hfire. rewrite Hlast in Hfire. lia.
    - rewrite (RateLimiterSpec.refillTokens_not_fired now rateLimiter Hadd).
      exact Hadd. }
  assert (Hsame : fst (checkMany n now rateLimiter) = fst (checkMany n now s1)).
  { destruct n as [|n]; [reflexivity|]. cbn [checkMany].
    unfold checkRateLimit, RateLimiter.acquireToken. fold s1.
    rewrite (RateLimiterSpec.refillTokens_not_fired now s1 Hstable). reflexivity. }
  rewrite Hsame, (checkMany_settled_limiter now n s1 Hstable).
  subst s1. rewrite RateLimiterSpec.refillTokens_config. reflexivity.
Qed.

Lemma concurrent_checks_take_available_tokens_witness :
  fst (checkMany 4 500 (RateLimiter.constructor 60 2 None 0))
  = [Return tt; Return tt;
     Throw (ServiceError (RATE_LIMIT_ERROR "Rate limit exceeded"
                                           (Some (JNum 1000)) None None));
     Throw (ServiceError (RATE_LIMIT_ERROR "Rate limit exceeded"
                                           (Some (JNum 1000)) None None))].
Proof.
  exact (concurrent_checks_take_available_tokens
           4 500 (RateLimiter.constructor 60 2 None 0)
           (conj eq_refl eq_refl)).
Defined.

(** *** Cache keys *)

Lemma append_cons (c : ascii) (a b : string) :
  (String c a ++ b)%string = String c (a ++ b)%string.
Proof. reflexivity. Qed.

Lemma append_empty (b : string) : (EmptyString ++ b)%string = b.
Proof. reflexivity. Qed.

Lemma split_at_last_colon (q q' l l' : string) :
  occurs ":" l = false -> occurs ":" l' = false ->
  (q ++ String ":" l = q' ++ String ":" l')%string ->
  q = q' /\ l = l'.
Proof.
  intros Hl Hl'. revert q'.
  assert (Hmid : forall a b : string, occurs ":" (a ++ String ":" b) = true).
  { induction a as [|c a IHa]; intros b;
      rewrite ?append_cons, ?append_empty; cbn [occurs].
    - reflexivity.
    - rewrite IHa. apply orb_true_r. }
  induction q as [|c q IH]; intros [|c' q'] H;
    rewrite ?append_cons, ?append_empty in H.
  - injection H as H. split; [reflexivity | exact H].
  - injection H as Hc H. subst l. rewrite Hmid in Hl. discriminate.
  - injection H as Hc H. subst l'. rewrite Hmid in Hl'. discriminate.
  - injection H as Hc H. destruct (IH q' H) as [-> ->]. subst c'.
    split; reflexivity.
Qed.

Lemma numeral_no_colon (u : Decimal.uint) :
  occurs ":" (NilEmpty.string_of_uint u) = false.
Proof. induction u; cbn [NilEmpty.string_of_uint occurs]; try exact IHu; reflexivity. Qed.

Lemma nilzero_no_colon (u : Decimal.uint) :
  occurs ":" (NilZero.string_of_uint u) = false.
Proof.
  destruct u; [reflexivity|..];
    match goal with
    | |- occurs _ (NilZero.string_of_uint ?d) = false => exact (numeral_no_colon d)
    end.
Qed.

Lemma decimal_no_colon (z : Z) : occurs ":" (Js.decimal z) = false.
Proof.
  unfold Js.decimal. destruct z as [|p|p]; [reflexivity|..];
    cbn [Z.to_int NilZero.string_of_int].
  - apply nilzero_no_colon.
  - change (occurs ":" (String "-" (NilZero.string_of_uint (Pos.to_uint p))))
      with (occurs ":" (NilZero.string_of_uint (Pos.to_uint p))).
    apply nilzero_no_colon.
Qed.

Lemma safe_toString (z : Z) :
  (Z.abs z <? 2 ^ 53) = true -> Js.toString z = Js.decimal z.
Proof. intros H. unfold Js.toString. rewrite H. reflexivity. Qed.

Lemma safe_toDouble (z : Z) : (Z.abs z <? 2 ^ 53) = true -> toDouble z = JNum z.
Proof. intros H. unfold toDouble. cbv zeta. rewrite H. reflexivity. Qed.

(** The digits [parseInt] reads from a numeral, whatever it rounds them
    to: the numeral determines the integer. *)
Lemma decimal_injective (n n' : Z) :
  (Z.abs n <? 2 ^ 53) = true -> (Z.abs n' <? 2 ^ 53) = true ->
  Js.decimal n = Js.decimal n' -> n = n'.
Proof.
  intros Hn Hn' H. apply (f_equal Js.parseInt) in H.
  rewrite !ObsidianHttpClientSpec.parseInt_decimal in H.
  rewrite (safe_toDouble n Hn), (safe_toDouble n' Hn') in H.
  congruence.
Qed.

Lemma decimal_not_default (n : Z) :
  (Z.abs n <? 2 ^ 53) = true -> Js.decimal n <> "default"%string.
Proof.
  intros Hn H. apply (f_equal Js.parseInt) in H.
  rewrite ObsidianHttpClientSpec.parseInt_decimal, (safe_toDouble n Hn) in H.
  vm_compute in H. discriminate.
Qed.

Lemma maxResultsLabel_no_colon (m : option Z) :
  match m with Some n => Z.abs n <? 2 ^ 53 | None => true end = true ->
  occurs ":" (maxResultsLabel m) = false.
Proof.
  destruct m as [n|]; [|reflexivity]. intros Hn. cbn [maxResultsLabel].
  destruct (n =? 0); [reflexivity|].
  rewrite (safe_toString n Hn). apply decimal_no_colon.
Qed.

(** The label is the number, except that an absent and a zero
    [maxResults] both read "default". *)
Lemma maxResultsLabel_injective (m m' : option Z) :
  match m with Some n => Z.abs n <? 2 ^ 53 | None => true end = true ->
  match m' with Some n => Z.abs n <? 2 ^ 53 | None => true end = true ->
  maxResultsLabel m = maxResultsLabel m' ->
  m = m' \/ (noMaxResults m /\ noMaxResults m').
Proof.
  unfold noMaxResults.
  destruct m as [n|], m' as [n'|]; cbn [maxResultsLabel]; intros Hn Hn' H.
  - destruct (Z.eqb_spec n 0) as [->|Hz], (Z.eqb_spec n' 0) as [->|Hz'].
    + left. reflexivity.
    + rewrite (safe_toString n' Hn') in H.
      exfalso. exact (decimal_not_default n' Hn' (eq_sym H)).
    + rewrite (safe_toString n Hn) in H.
      exfalso. exact (decimal_not_default n Hn H).
    + rewrite (safe_toString n Hn), (safe_toString n' Hn') in H.
      left. f_equal. exact (decimal_injective n n' Hn Hn' H).
  - destruct (Z.eqb_spec n 0) as [->|Hz].
    + right. split; [right | left]; reflexivity.
    + rewrite (safe_toString n Hn) in H.
      exfalso. exact (decimal_not_default n Hn H).
  - destruct (Z.eqb_spec n' 0) as [->|Hz'].
    + right. split; [left | right]; reflexivity.
    + rewrite (safe_toString n' Hn') in H.
      exfalso. exact (decimal_not_default n' Hn' (eq_sym H)).
  - left. reflexivity.
Qed.

(** Two deduplicated operations share a cache key only when they ask the
    server for the same thing: the same method with the same arguments,
    where an absent and a zero [maxResults] count as the same (neither
    sends the parameter).  The payload of [updateIssue] is the one thing
    a key does not record.  One method's callers are never handed another
    method's result.  [maxResults] is taken to be a safe integer. *)
Theorem same_cache_key_same_request (a b : operation) :
  safeArguments a = true -> safeArguments b = true ->
  cacheKey a = cacheKey b -> sameRequest a b.
Proof.
  destruct a, b; cbn [cacheKey sameRequest safeArguments]; intros Ha Hb H;
    try exact I;
    repeat rewrite ?append_cons, ?append_empty in H;
    try congruence.
  simplify_eq.
  match goal with
  | H : (_ ++ String ":" (maxResultsLabel _))%string = _ |- _ =>
      apply split_at_last_colon in H;
        [| apply maxResultsLabel_no_colon; assumption ..]
  end.
  destruct H as [Hq Hl]. split; [exact Hq|].
  apply maxResultsLabel_injective; assumption.
Qed.

Lemma same_cache_key_same_request_witness :
  sameRequest (SearchUsers "ann:lee" (Some 0)) (SearchUsers "ann:lee" None).
Proof. apply same_cache_key_same_request; reflexivity. Defined.

Lemma all_equal_replicate {A : Type} (x : A) (l : list A) :
  Forall (fun y => y = x) l -> l = replicate (length l) x.
Proof.
  induction 1 as [|y l Hy _ IH]; [reflexivity|].
  cbn [length replicate]. rewrite <- IH, Hy. reflexivity.
Qed.

(** While an update of an issue is in flight, further [updateIssue] calls
    for the same issue join it whatever their payload: only the first
    payload is sent, and every caller is handed the first call's promise. *)
Theorem concurrent_updates_send_first_payload
    (history : list event) (issue : string) (data : nat) (others : list nat) :
  let s := exec init history in
  let calls := map (fun d => perform (UpdateIssue issue d)) (data :: others) in
  idleKey (cacheKey (UpdateIssue issue data)) s = true ->
  invokedFor (cacheKey (UpdateIssue issue data)) (exec s calls)
  = data :: invokedFor (cacheKey (UpdateIssue issue data)) s
  /\ futuresFor (cacheKey (UpdateIssue issue data)) s calls
     = replicate (S (length others)) (Shared (nextPromise s)).
Proof.
  intros s calls Hidle. subst calls.
  set (k := cacheKey (UpdateIssue issue data)) in *.
  assert (Hwf : wellFormed s) by apply exec_wellFormed, init_wellFormed.
  destruct (first_call_starts_flight k (requestFnOf (UpdateIssue issue data)) s
              Hwf Hidle eq_refl) as (Hcall & Hfl & Hinv).
  cbn [map]. unfold perform at 1 3. fold k.
  change (cacheKey (UpdateIssue issue data)) with k.
  assert (Hkeep : keepsInFlight (nextPromise s)
                    (map (fun d => perform (UpdateIssue issue d)) others) = true).
  { clear. induction others as [|d others IH]; [reflexivity | exact IH]. }
  destruct (schedule_inFlight k (nextPromise s) _ _ Hfl Hkeep)
    as (_ & Hinv' & Hfut).
  cbn [exec fold_left]. fold (exec (step s (Call k (requestFnOf (UpdateIssue issue data))))
                                (map (fun d => perform (UpdateIssue issue d)) others)).
  cbn [step] in *. split; [rewrite Hinv', Hinv; reflexivity|].
  cbn [futuresFor]. rewrite String.eqb_refl, Hcall. cbn [fst replicate step].
  f_equal. rewrite (all_equal_replicate _ _ Hfut). f_equal.
  rewrite futuresFor_length. clear. unfold callers.
  induction others as [|d others IH]; [reflexivity|].
  cbn [map List.filter perform]. change (cacheKey (UpdateIssue issue d)) with k.
  rewrite String.eqb_refl. cbn [length]. rewrite IH. reflexivity.
Qed.

Lemma concurrent_updates_send_first_payload_witness :
  invokedFor "updateIssue:A-1"
    (exec init [perform (UpdateIssue "A-1" 11); perform (UpdateIssue "A-1" 22)])
  = [11%nat]
  /\ futuresFor "updateIssue:A-1" init
       [perform (UpdateIssue "A-1" 11); perform (UpdateIssue "A-1" 22)]
     = [Shared 0; Shared 0].
Proof.
  exact (concurrent_updates_send_first_payload [] "A-1" 11 [22%nat] eq_refl).
Defined.

(** As long as the service is not destroyed, the map is exactly the set
    of requests in flight: an entry under [k] pointing to [p] exists if
    and only if the cleanup of the pending promise [p] is registered for
    [k]; once every request has settled the map is empty. *)
Theorem map_mirrors_requests_in_flight (history : list event) :
  destroyFree history = true ->
  let s := exec init history in
  (forall k p, requestDeduplicationMap s !! k = Some p <-> cleanup s !! p = Some k)
  /\ (cleanup s = ∅ -> requestDeduplicationMap s = ∅).
Proof.
  intros Hfree s.
  assert (Hwf : wellFormed s) by apply exec_wellFormed, init_wellFormed.
  assert (Hback : forall q k, cleanup s !! q = Some k ->
                              requestDeduplicationMap s !! k = Some q).
  { apply cleanup_has_entry; [|exact Hfree].
    intros q k H. cbn in H. rewrite lookup_empty in H. discriminate. }
  split.
  - intros k p. split; [apply (wf_entry s Hwf) | apply Hback].
  - intros Hnone. apply map_eq. intros k. rewrite lookup_empty.
    destruct (requestDeduplicationMap s !! k) as [p|] eqn:Hk; [|reflexivity].
    apply (wf_entry s Hwf) in Hk. rewrite Hnone, lookup_empty in Hk. discriminate.
Qed.

Lemma map_mirrors_requests_in_flight_witness :
  requestDeduplicationMap
    (exec init [perform (GetIssue "A-1"); perform GetProjects;
                Settle 1 (Fulfilled "[]"); Settle 0 (Rejected "404")])
  = ∅.
Proof.
  apply (map_mirrors_requests_in_flight
           [perform (GetIssue "A-1"); perform GetProjects;
            Settle 1 (Fulfilled "[]"); Settle 0 (Rejected "404")] eq_refl).
  reflexivity.
Defined.


(** *** The batch operations *)

Section BatchLoop.

Context {A R : Type}.
Variable batchSize : nat.
Variable pause : Z.
Variable issueIdOrKey : A -> string.
Variable settled : nat -> A -> completion R.
Hypothesis batchSize_positive : (0 < batchSize)%nat.




End BatchLoop.



(** *** Destroying the service while requests are in flight *)

(** [destroy] clears the map but not the cleanups of the promises in
    flight.  If a request for [k] is in flight when the service is
    destroyed and a second request for [k] is started afterwards, the
    first one's cleanup, when it settles, deletes the entry of the second:
    the second promise is still pending, the map has no entry for [k],
    and a third call for [k] invokes its function as well. *)
Theorem destroy_in_flight_evicts_later_entry
    (history : list event) (k : string) (f1 f2 f3 : requestFn) (o : settlement) :
  idleKey k (exec init history) = true ->
  fn_behaviour f1 = ReturnsPromise ->
  fn_behaviour f2 = ReturnsPromise ->
  let s0 := exec init history in
  let first := nextPromise s0 in
  let s := exec s0 [Call k f1; DestroyService; Call k f2; Settle first o] in
  cleanup s !! S first = Some k
  /\ outcome s !! S first = None
  /\ requestDeduplicationMap s !! k = None
  /\ invokedFor k (snd (deduplicateRequest k f3 s))
     = fn_id f3 :: fn_id f2 :: fn_id f1 :: invokedFor k s0.
Proof.
  intros Hidle Hf1 Hf2 s0 first s.
  assert (Hwf : wellFormed s0) by (apply exec_wellFormed, init_wellFormed).
  destruct Hwf as [I1 I2 I3 I4].
  pose proof (idleKey_spec k s0 Hidle) as Hno.
  assert (Hk : requestDeduplicationMap s0 !! k = None).
  { destruct (requestDeduplicationMap s0 !! k) as [p|] eqn:E; [|reflexivity].
    exfalso. exact (Hno p (I1 _ _ E)). }
  assert (Hout : outcome s0 !! S first = None).
  { destruct (outcome s0 !! S first) as [x|] eqn:E; [|reflexivity].
    apply I4 in E. unfold first in E. lia. }
  assert (E1 : step s0 (Call k f1)
               = {| requestDeduplicationMap := <[k := first]> (requestDeduplicationMap s0);
                    cleanup := <[first := k]> (cleanup s0);
                    outcome := outcome s0;
                    nextPromise := S first;
                    invoked := (k, fn_id f1) :: invoked s0 |}).
  { cbn [step]. unfold deduplicateRequest. rewrite Hk, Hf1. reflexivity. }
  assert (E3 : forall m,
             step (destroy {| requestDeduplicationMap := m;
                              cleanup := <[first := k]> (cleanup s0);
                              outcome := outcome s0;
                              nextPromise := S first;
                              invoked := (k, fn_id f1) :: invoked s0 |})
                  (Call k f2)
             = {| requestDeduplicationMap := <[k := S first]> ∅;
                  cleanup := <[S first := k]> (<[first := k]> (cleanup s0));
                  outcome := outcome s0;
                  nextPromise := S (S first);
                  invoked := (k, fn_id f2) :: (k, fn_id f1) :: invoked s0 |}).
  { intros m. cbn [step]. unfold deduplicateRequest, destroy.
    cbn [requestDeduplicationMap cleanup outcome nextPromise invoked].
    rewrite lookup_empty, Hf2. reflexivity. }
  assert (E4 : s = {| requestDeduplicationMap := delete k (<[k := S first]> ∅);
                      cleanup := delete first
                                   (<[S first := k]> (<[first := k]> (cleanup s0)));
                      outcome := <[first := o]> (outcome s0);
                      nextPromise := S (S first);
                      invoked := (k, fn_id f2) :: (k, fn_id f1) :: invoked s0 |}).
  { subst s. cbn [exec fold_left]. rewrite E1.
    change (step ?x DestroyService) with (destroy x). rewrite E3.
    cbn [step]. unfold settle.
    cbn [requestDeduplicationMap cleanup outcome nextPromise invoked].
    rewrite lookup_insert_ne by lia. rewrite lookup_insert_eq. reflexivity. }
  rewrite E4. clear E1 E3 E4.
  cbn [requestDeduplicationMap cleanup outcome nextPromise invoked].
  split; [|split; [|split]].
  - rewrite lookup_delete_ne by lia. apply lookup_insert_eq.
  - rewrite lookup_insert_ne by lia. exact Hout.
  - apply lookup_delete_eq.
  - unfold deduplicateRequest.
    cbn [requestDeduplicationMap cleanup outcome nextPromise invoked].
    rewrite lookup_delete_eq. unfold invokedFor.
    destruct (fn_behaviour f3);
      cbn [snd invoked omap list_omap]; rewrite String.eqb_refl; reflexivity.
Qed.

Lemma destroy_in_flight_evicts_later_entry_witness :
  cleanup (exec init [Call "getIssue:A-1" {| fn_id := 7; fn_behaviour := ReturnsPromise |};
                      DestroyService;
                      Call "getIssue:A-1" {| fn_id := 8; fn_behaviour := ReturnsPromise |};
                      Settle 0 (Fulfilled "x")])
    !! 1%nat = Some "getIssue:A-1"
  /\ invokedFor "getIssue:A-1"
       (snd (deduplicateRequest "getIssue:A-1"
               {| fn_id := 9; fn_behaviour := ReturnsPromise |}
               (exec init [Call "getIssue:A-1"
                             {| fn_id := 7; fn_behaviour := ReturnsPromise |};
                           DestroyService;
                           Call "getIssue:A-1"
                             {| fn_id := 8; fn_behaviour := ReturnsPromise |};
                           Settle 0 (Fulfilled "x")])))
     = [9; 8; 7]%nat.
Proof.
  destruct (destroy_in_flight_evicts_later_entry
              [] "getIssue:A-1"
              {| fn_id := 7; fn_behaviour := ReturnsPromise |}
              {| fn_id := 8; fn_behaviour := ReturnsPromise |}
              {| fn_id := 9; fn_behaviour := ReturnsPromise |}
              (Fulfilled "x") eq_refl eq_refl eq_refl) as (H1 & _ & _ & H4).
  split; [exact H1 | exact H4].
Defined.

End JiraApiServiceSpec.
